(** * Redwood: the cache helpers ([cache], [cacheLatest]) and the
    release-candidate version lister ([main] of getLatestVersions.js)

    A shallow embedding of the two source files.  JavaScript values are a
    first-order datatype, an asynchronous function is a state transformer
    that either returns a value or throws, and [try]/[catch] is a combinator
    that keeps the state reached when the exception was raised (JavaScript
    never rolls back side effects). *)

From Stdlib Require Import Ascii.
From stdpp Require Import gmap strings list pretty.

Set Warnings "-register-all".
Open Scope string_scope.
Open Scope Z_scope.

(** ** JavaScript values, exceptions and the effect monad *)

Module Js.

(** The values the two programs handle: what [JSON.parse] can return, plus
    [undefined].  Numbers are the integers JavaScript prints in plain
    decimal (no fractions, NaN or infinities, magnitude below 10^21, which
    covers every epoch time of a [Date]); strings are sequences of ASCII
    characters; the fields of an object and the items of an array are kept
    in enumeration order. *)
Inductive JsVal : Type :=
| VUndefined
| VNull
| VBool (b : bool)
| VNum (n : Z)
| VStr (s : string)
| VArr (items : list JsVal)
| VObj (fields : list (string * JsVal)).

(** A thrown [Error] object: its [name] and its [message]. *)
Record Error : Type := mkError { err_name : string; err_message : string }.

Definition TypeError (msg : string) : Error := mkError "TypeError" msg.

(** The outcome of a call: a value, or an exception. *)
Inductive Result (A : Type) : Type :=
| Ok (a : A)
| Throw (e : Error).
Arguments Ok {A} a.
Arguments Throw {A} e.

(** JavaScript truthiness (ToBoolean): [undefined], [null], [false], [0]
    and the empty string are falsy, every object and array is truthy. *)
Definition truthy (v : JsVal) : bool :=
  match v with
  | VUndefined | VNull => false
  | VBool b => b
  | VNum n => negb (n =? 0)
  | VStr s => negb (String.eqb s "")
  | VArr _ | VObj _ => true
  end.

(** ToString, as a template literal applies it: numbers in decimal, an
    array as its items joined with commas ([null] and [undefined] items
    render as nothing), a plain object as [[object Object]]. *)
Fixpoint to_string (v : JsVal) : string :=
  match v with
  | VUndefined => "undefined"
  | VNull => "null"
  | VBool true => "true"
  | VBool false => "false"
  | VNum n => pretty n
  | VStr s => s
  | VArr items =>
      String.concat ","
        (map (fun x => match x with
                       | VUndefined | VNull => ""
                       | _ => to_string x
                       end) items)
  | VObj _ => "[object Object]"
  end.

(** A text with no minus sign in it, as the digits of a number are. *)
Fixpoint dash_free (s : string) : Prop :=
  match s with
  | EmptyString => True
  | String c rest => c <> "-"%char /\ dash_free rest
  end.

(** [fields[k]] of an object literal: the first (only) entry named [k]. *)
Fixpoint lookup_field (k : string) (fields : list (string * JsVal)) : option JsVal :=
  match fields with
  | [] => None
  | (k', v) :: rest => if decide (k' = k) then Some v else lookup_field k rest
  end.

(** The position named by a canonical array index below [n], if [k] is one. *)
Definition array_index (k : string) (n : nat) : option nat :=
  List.find (fun i => bool_decide (pretty i = k)) (seq 0 n).

(** Property read [v[k]]: a TypeError on [null] and [undefined], the field
    of an object, an item or the length of an array or string, and
    [undefined] for everything else. *)
Definition get_prop (v : JsVal) (k : string) : Result JsVal :=
  match v with
  | VUndefined =>
      Throw (TypeError ("Cannot read properties of undefined (reading '" +:+ k +:+ "')"))
  | VNull =>
      Throw (TypeError ("Cannot read properties of null (reading '" +:+ k +:+ "')"))
  | VObj fields => Ok (default VUndefined (lookup_field k fields))
  | VArr items =>
      if decide (k = "length") then Ok (VNum (Z.of_nat (length items)))
      else Ok (default VUndefined (i ← array_index k (length items); items !! i))
  | VStr s =>
      let chars := String.list_ascii_of_string s in
      if decide (k = "length") then Ok (VNum (Z.of_nat (length chars)))
      else Ok (default VUndefined
                 (i ← array_index k (length chars);
                  c ← chars !! i; Some (VStr (String c ""))))
  | VBool _ | VNum _ => Ok VUndefined
  end.

(** The built-in [JSON] object.  It belongs to the runtime, not to the
    repository, so the programs are parametric in it.  [JSON.stringify]
    returns [undefined] (here [None]) for values with no JSON text and may
    throw; [JSON.parse] throws a SyntaxError on malformed text. *)
Class Json : Type := {
  JSON_stringify : JsVal -> Result (option string);
  JSON_parse : string -> Result JsVal
}.

(** An effectful computation over a state [S]: the state reached is
    returned also when the computation throws. *)
Definition M (S A : Type) : Type := S -> Result A * S.

Definition ret {S A} (a : A) : M S A := fun s => (Ok a, s).

Definition throw {S A} (e : Error) : M S A := fun s => (Throw e, s).

Definition bind {S A B} (m : M S A) (k : A -> M S B) : M S B :=
  fun s =>
    match m s with
    | (Ok a, s') => k a s'
    | (Throw e, s') => (Throw e, s')
    end.

(** [try { body } catch (e) { handler e }]. *)
Definition try_catch {S A} (body : M S A) (handler : Error -> M S A) : M S A :=
  fun s =>
    match body s with
    | (Ok a, s') => (Ok a, s')
    | (Throw e, s') => handler e s'
    end.

(** A call that has no effect on the state (a pure built-in). *)
Definition lift {S A} (r : Result A) : M S A := fun s => (r, s).

End Js.

Import Js.

Declare Scope js_scope.
Delimit Scope js_scope with js.
Notation "x <- m ;; k" := (bind m (fun x => k))
  (at level 100, m at next level, right associativity) : js_scope.
Notation "m ;;; k" := (bind m (fun _ => k))
  (at level 100, right associativity) : js_scope.

(** ** The cache helpers: [cache] and [cacheLatest] *)

Module Cache.

(** [CacheOptions]: the optional lifetime of an entry, in seconds. *)
Record CacheOptions : Type := mkOptions { expires : option Z }.

(** The literal [{}]. *)
Definition no_options : CacheOptions := mkOptions None.

(** The memcached service behind the [memjs] client: the entries it holds
    (the stored text with the options it was written with), and the
    failure, if any, that creating the client, a read or a write meets. *)
Record Memcached : Type := mkMemcached {
  entries : gmap string (string * CacheOptions);
  connect_fault : option Error;
  get_fault : option Error;
  set_fault : option Error
}.

(** What a call leaves behind on the console, with a mark for every
    invocation of the producer. *)
Inductive Event : Type :=
| ConsoleDebug (msg : string)
| ConsoleError (msg : string) (e : Error)
| Invoked.

Section WithRuntime.

Context {Env : Type} {json : Json}.

(** The state the helpers run in: the cache service, the console, and the
    application state [Env] (the database) that producers and Prisma
    models act on. *)
Record World : Type := mkWorld {
  memcached : Memcached;
  console : list Event;
  env : Env
}.

(** [Cacheable = () => unknown]: a producer acts on the application state
    and returns or throws. *)
Definition Cacheable : Type := M Env JsVal.

Definition console_debug (msg : string) : M World unit :=
  fun w => (Ok tt, mkWorld (memcached w) (console w ++ [ConsoleDebug msg]) (env w)).

Definition console_error (msg : string) (e : Error) : M World unit :=
  fun w => (Ok tt, mkWorld (memcached w) (console w ++ [ConsoleError msg e]) (env w)).

(** [await input()]: one invocation of the producer. *)
Definition invoke (input : Cacheable) : M World JsVal :=
  fun w =>
    let '(r, env') := input (env w) in
    (r, mkWorld (memcached w) (console w ++ [Invoked]) env').

(** [const { Client } = await import('memjs'); Client.create()]. *)
Definition memjs_create : M World unit :=
  fun w =>
    match connect_fault (memcached w) with
    | Some e => (Throw e, w)
    | None => (Ok tt, w)
    end.

(** [memjs.get(key)]: the [value] of the reply, a buffer or [null]. *)
Definition memjs_get (key : string) : M World (option string) :=
  fun w =>
    match get_fault (memcached w) with
    | Some e => (Throw e, w)
    | None => (Ok (fst <$> entries (memcached w) !! key), w)
    end.

(** [memjs.set(key, value, options)].  The client encodes the value as a
    buffer, which fails on [undefined]. *)
Definition memjs_set (key : string) (value : option string) (options : CacheOptions)
  : M World unit :=
  fun w =>
    let mc := memcached w in
    match set_fault mc, value with
    | Some e, _ => (Throw e, w)
    | None, None => (Throw (TypeError "value must be a string or a Buffer"), w)
    | None, Some text =>
        (Ok tt,
         mkWorld (mkMemcached (<[key := (text, options)]> (entries mc))
                    (connect_fault mc) (get_fault mc) (set_fault mc))
                 (console w) (env w))
    end.

(** The handler of the inner [try]: [data] is the local variable as it
    stood when the exception was raised. *)
Definition catch_set (input : Cacheable) (data : JsVal) (e : Error) : M World JsVal :=
  (console_error "Error in cache SET" e ;;;
   if truthy data then ret data else invoke input)%js.

(** The MISS branch, lines 72-82: [let data] followed by the inner
    [try]/[catch].  The handler sees [undefined] when the producer threw,
    and the produced value when [JSON.stringify] or the write threw. *)
Definition cache_miss (key : string) (input : Cacheable) (options : option CacheOptions)
  : M World JsVal :=
  fun w =>
    let data := VUndefined in
    match (console_debug ("Cache MISS " +:+ key) ;;; invoke input)%js w with
    | (Throw e, w1) => catch_set input data e w1
    | (Ok data, w1) =>
        match (text <- lift (JSON_stringify data) ;;
               memjs_set key text (default no_options options))%js w1 with
        | (Throw e, w2) => catch_set input data e w2
        | (Ok _, w2) => (Ok data, w2)
        end
    end.

(** [cache(key, input, options)], lines 56-87. *)
Definition cache (key : string) (input : Cacheable) (options : option CacheOptions)
  : M World JsVal :=
  try_catch
    (memjs_create ;;;
     result <- memjs_get key ;;
     match result with
     | Some value =>
         console_debug ("Cache HIT " +:+ key) ;;;
         lift (JSON_parse value)
     | None => cache_miss key input options
     end)%js
    (fun e => console_error "Error in cache GET" e ;;; invoke input)%js.

(** How many times the producer was invoked. *)
Fixpoint invocations (t : list Event) : nat :=
  match t with
  | [] => 0%nat
  | Invoked :: rest => S (invocations rest)
  | _ :: rest => invocations rest
  end.

(** What the MISS branch always leaves on the console first: its debug
    line and the mark of the primary invocation. *)
Definition miss_trace (key : string) : list Event :=
  [ConsoleDebug ("Cache MISS " +:+ key); Invoked].

(** The console after a failed primary invocation and the retry made by
    the handler of the inner [try]. *)
Definition retry_trace (w : World) (key : string) (e1 : Error) : list Event :=
  console w ++ miss_trace key ++ [ConsoleError "Error in cache SET" e1; Invoked].

(** *** [cacheLatest] *)

(** What the probe selects from the latest record: its [id], and its
    [updatedAt] date as milliseconds since the epoch ([None] for a [null]
    column). *)
Record LatestRecord : Type := mkLatest { id : JsVal; updatedAt : option Z }.

(** A Prisma model delegate: [findFirst] with the probe's projection, and
    the operations reachable by name, [model[name]]. *)
Record Model : Type := mkModel {
  findFirst : JsVal -> M Env (option LatestRecord);
  operation : string -> option (JsVal -> M Env JsVal)
}.

(** [CacheLatestOptions]: [{ model, ...rest }]. *)
Record CacheLatestOptions : Type := mkLatestOptions {
  model : option Model;
  rest : CacheOptions
}.

(** [LatestQuery = Record<string, unknown>], its entries in the order
    [Object.keys] enumerates them. *)
Definition LatestQuery : Type := list (string * JsVal).

Definition Object_keys (query : LatestQuery) : list string := map fst query.

(** A property key: [undefined] used as a key is the string "undefined". *)
Definition prop_name (k : option string) : string := default "undefined" k.

(** The own enumerable properties a spread [{...v}] copies. *)
Definition spread (v : JsVal) : list (string * JsVal) :=
  match v with
  | VObj fields => fields
  | VArr items => imap (fun i x => (pretty i, x)) items
  | VStr s =>
      imap (fun i c => (pretty i, VStr (String c ""))) (String.list_ascii_of_string s)
  | _ => []
  end.

(** Defining [k: v] in an object literal: an existing property keeps its
    place and takes the new value, a new one goes last. *)
Fixpoint set_field (k : string) (v : JsVal) (fields : list (string * JsVal))
  : list (string * JsVal) :=
  match fields with
  | [] => [(k, v)]
  | (k', v') :: rest =>
      if decide (k' = k) then (k, v) :: rest else (k', v') :: set_field k v rest
  end.

(** The argument of the probe, lines 130-134. *)
Definition probe_args (conditions : JsVal) : JsVal :=
  VObj (set_field "select" (VObj [("id", VBool true); ("updatedAt", VBool true)])
          (set_field "orderBy" (VObj [("updatedAt", VStr "desc")])
             (spread conditions))).

(** [model.findFirst(args)]. *)
Definition call_findFirst (model : option Model) (args : JsVal)
  : M Env (option LatestRecord) :=
  match model with
  | None => throw (TypeError "Cannot read properties of undefined (reading 'findFirst')")
  | Some m => findFirst m args
  end.

(** [model[queryFunction](conditions)]. *)
Definition call_model (model : option Model) (queryFunction : option string)
    (conditions : JsVal) : M Env JsVal :=
  match model with
  | None =>
      throw (TypeError ("Cannot read properties of undefined (reading '"
                        +:+ prop_name queryFunction +:+ "')"))
  | Some m =>
      match operation m (prop_name queryFunction) with
      | None => throw (TypeError "model[queryFunction] is not a function")
      | Some f => f conditions
      end
  end.

(** Line 135: [`${key}-${latest.id}-${latest.updatedAt.getTime()}`]. *)
Definition derived_key (key : string) (latest : option LatestRecord) : Result string :=
  match latest with
  | None => Throw (TypeError "Cannot read properties of null (reading 'id')")
  | Some r =>
      match updatedAt r with
      | None => Throw (TypeError "Cannot read properties of null (reading 'getTime')")
      | Some ms => Ok (key +:+ "-" +:+ to_string (id r) +:+ "-" +:+ to_string (VNum ms))
      end
  end.

(** Two latest records whose keys can be told apart: the ids are numbers,
    or they are strings and neither update is dated before the epoch. *)
Definition separable (r1 r2 : LatestRecord) : Prop :=
  match id r1, id r2, updatedAt r1, updatedAt r2 with
  | VNum _, VNum _, _, _ => True
  | VStr _, VStr _, Some ms1, Some ms2 => 0 <= ms1 /\ 0 <= ms2
  | _, _, _, _ => False
  end.

(** Ids of one kind: two numbers, or two strings. *)
Definition same_kind_ids (r1 r2 : LatestRecord) : Prop :=
  match id r1, id r2 with
  | VNum _, VNum _ | VStr _, VStr _ => True
  | _, _ => False
  end.

(** The one way two records that print differently share a key: the id
    of the first prints as the id of the second followed by a minus sign,
    the second was updated before the epoch, and the first as long after
    it. *)
Definition dash_collision (r1 r2 : LatestRecord) : Prop :=
  match updatedAt r1, updatedAt r2 with
  | Some ms1, Some ms2 =>
      to_string (id r1) = to_string (id r2) +:+ "-" /\ ms2 < 0 /\ ms1 = - ms2
  | _, _ => False
  end.

(** A database call made outside [cache]: it acts on the application
    state only. *)
Definition on_env {A} (m : M Env A) : M World A :=
  fun w =>
    let '(r, env') := m (env w) in
    (r, mkWorld (memcached w) (console w) env').

(** [cacheLatest(key, options, query)], lines 116-142.  The [try] covers
    the probe and the construction of the key.  [return cache(...)] hands
    the promise of [cache] back without awaiting it, so what [cache]
    throws is not seen by the [catch] of line 138. *)
Definition cacheLatest (key : string) (options : CacheLatestOptions) (query : LatestQuery)
  : M World JsVal :=
  let queryFunction := head (Object_keys query) in
  let conditions := default VUndefined (lookup_field (prop_name queryFunction) query) in
  fun w =>
    match (latest <- on_env (call_findFirst (model options) (probe_args conditions)) ;;
           lift (derived_key key latest))%js w with
    | (Ok cacheKey, w1) =>
        cache cacheKey (call_model (model options) queryFunction conditions)
          (Some (rest options)) w1
    | (Throw e, w1) =>
        (console_error "Error in cacheLatest" e ;;;
         on_env (call_model (model options) queryFunction conditions))%js w1
    end.

End WithRuntime.

Arguments World : clear implicits.
Arguments Cacheable : clear implicits.
Arguments Model : clear implicits.
Arguments CacheLatestOptions : clear implicits.

End Cache.

(** ** The version lister: the loop of [main] in getLatestVersions.js *)

Module VersionReporter.

(** A console call with its arguments. *)
Inductive Line : Type :=
| ConsoleLog (msg : string)
| ConsoleError (msg : string) (detail : string).

Section WithShell.

(** [Shell] is the state of the world outside the process (the registry);
    [execSync] runs a command line in it and returns its standard output,
    or throws when the command fails. *)
Context {Shell : Type} (execSync : string -> M Shell string) {json : Json}.

Record World : Type := mkWorld {
  shell : Shell;
  console : list Line
}.

Definition exec (command : string) : M World string :=
  fun w =>
    let '(r, sh') := execSync command (shell w) in
    (r, mkWorld sh' (console w)).

Definition console_log (msg : string) : M World unit :=
  fun w => (Ok tt, mkWorld (shell w) (console w ++ [ConsoleLog msg])).

Definition console_error (msg detail : string) : M World unit :=
  fun w => (Ok tt, mkWorld (shell w) (console w ++ [ConsoleError msg detail])).

(** [a && b] where [b] is a property read of [a]. *)
Definition and_then (a : JsVal) (b : Result JsVal) : Result JsVal :=
  if truthy a then b else Ok a.

(** [`yarn npm info ${packageName} --json`]. *)
Definition info_command (packageName : JsVal) : string :=
  "yarn npm info " +:+ to_string packageName +:+ " --json".

(** The body of the loop, lines 25-43, for one package name. *)
Definition report_package (packageName : JsVal) : M World unit :=
  try_catch
    (packageInfoJson <- exec (info_command packageName) ;;
     packageInfo <- lift (JSON_parse packageInfoJson) ;;
     tags <- lift (get_prop packageInfo "dist-tags") ;;
     rc <- lift (and_then tags (get_prop tags "rc")) ;;
     if truthy rc then
       console_log ("Latest RC version for " +:+ to_string packageName +:+ ": "
                    +:+ to_string rc)
     else
       console_log ("No RC version found for " +:+ to_string packageName))%js
    (fun error =>
       console_error
         ("Error fetching information for " +:+ to_string packageName +:+ ":")
         (err_message error)).

(** [for (const packageName of workspacePackages) { ... }], lines 24-44. *)
Fixpoint main_loop (workspacePackages : list JsVal) : M World unit :=
  match workspacePackages with
  | [] => ret tt
  | packageName :: others =>
      (report_package packageName ;;; main_loop others)%js
  end.

(** A console line that names the package it reports on: the version
    found, the absence of one, or the failure. *)
Definition about (packageName : JsVal) (l : Line) : Prop :=
  (exists rc, l = ConsoleLog ("Latest RC version for " +:+ to_string packageName +:+ ": " +:+ rc))
  \/ l = ConsoleLog ("No RC version found for " +:+ to_string packageName)
  \/ (exists detail,
        l = ConsoleError ("Error fetching information for " +:+ to_string packageName +:+ ":")
              detail).

(** A per-package failure with error [e], leaving the shell in [sh']: the
    registry query throws, or its reply does not parse. *)
Definition fetch_fails (packageName : JsVal) (w : World) (e : Error) (sh' : Shell) : Prop :=
  execSync (info_command packageName) (shell w) = (Throw e, sh')
  \/ (exists reply,
        execSync (info_command packageName) (shell w) = (Ok reply, sh')
        /\ JSON_parse reply = Throw e).

(** *** The whole of [main] and the handler of its promise *)

(** White space as [String.prototype.trim] sees it in ASCII text: tab,
    line feed, vertical tab, form feed, carriage return and space. *)
Definition is_white (c : ascii) : bool :=
  bool_decide (c ∈ ["009"; "010"; "011"; "012"; "013"; " "]%char).

Fixpoint trim_start (s : string) : string :=
  match s with
  | EmptyString => EmptyString
  | String c rest => if is_white c then trim_start rest else s
  end.

Fixpoint trim_end (s : string) : string :=
  match s with
  | EmptyString => EmptyString
  | String c rest =>
      match trim_end rest with
      | EmptyString => if is_white c then EmptyString else String c EmptyString
      | kept => String c kept
      end
  end.

(** [s.trim()]. *)
Definition trim (s : string) : string := trim_end (trim_start s).

(** [s.split(sep)] for a one-character separator: the pieces between the
    separators, so that a text without separator is a single piece. *)
Fixpoint split (sep : ascii) (s : string) : list string :=
  match s with
  | EmptyString => [EmptyString]
  | String c rest =>
      if decide (c = sep) then EmptyString :: split sep rest
      else match split sep rest with
           | piece :: pieces => String c piece :: pieces
           | [] => [String c EmptyString]
           end
  end.

(** The line feed, ['\n']. *)
Definition newline : ascii := "010"%char.

(** Every occurrence of the character [a] replaced by [b]. *)
Fixpoint replace_char (a b : ascii) (s : string) : string :=
  match s with
  | EmptyString => EmptyString
  | String c rest => String (if decide (c = a) then b else c) (replace_char a b rest)
  end.

(** A text made of white space only. *)
Fixpoint blank (s : string) : Prop :=
  match s with
  | EmptyString => True
  | String c rest => is_white c = true /\ blank rest
  end.

(** One line of output as a command prints a JSON value: not empty, no
    white space at either end, no line feed inside. *)
Definition clean_line (line : string) : Prop :=
  line <> EmptyString /\ trim_start line = line /\ trim_end line = line
  /\ split newline line = [line].

(** Lines printed one per line, each with its line feed. *)
Definition unlines (lines : list string) : string :=
  String.concat EmptyString (map (fun line => line +:+ String newline EmptyString) lines).

(** Lines 5-12: the output of the listing command, trimmed, with its
    lines joined by commas and wrapped in brackets. *)
Definition workspace_list_json (listing : string) : string :=
  "[" +:+ String.concat "," (split newline (trim listing)) +:+ "]".

(** [items.map((workspace) => workspace.name)] on the items of an array:
    the read of [name] throws on a [null] item. *)
Fixpoint names_of (items : list JsVal) : Result (list JsVal) :=
  match items with
  | [] => Ok []
  | workspace :: others =>
      match get_prop workspace "name" with
      | Throw e => Throw e
      | Ok name =>
          match names_of others with
          | Throw e => Throw e
          | Ok names => Ok (name :: names)
          end
      end
  end.

(** Lines 18-20, [parsed.map(...)]: only an array has a [map] method among
    the values [JSON.parse] returns. *)
Definition workspace_names (parsed : JsVal) : Result (list JsVal) :=
  match parsed with
  | VArr items => names_of items
  | VUndefined | VNull =>
      match get_prop parsed "map" with
      | Throw e => Throw e
      | Ok _ => Ok []
      end
  | _ => Throw (TypeError "JSON.parse(...).map is not a function")
  end.

(** What the script prints: the two [console.log] calls of the preamble
    with their arguments, the lines of the loop, and the line of the
    handler attached to the promise of [main]. *)
Inductive Output : Type :=
| Logged (args : list JsVal)
| Reported (l : Line)
| Failed (msg : string) (e : Error).

Record Script : Type := mkScript {
  script_shell : Shell;
  output : list Output
}.

Definition run (command : string) : M Script string :=
  fun s =>
    let '(r, sh') := execSync command (script_shell s) in
    (r, mkScript sh' (output s)).

Definition print (o : Output) : M Script unit :=
  fun s => (Ok tt, mkScript (script_shell s) (output s ++ [o])).

(** The loop inside the script: it only appends to the console, so its
    lines are collected and appended to what the preamble printed. *)
Definition in_script {A} (m : M World A) : M Script A :=
  fun s =>
    let '(r, w) := m (mkWorld (script_shell s) []) in
    (r, mkScript (shell w) (output s ++ map Reported (console w))).

(** [main()], lines 4-45. *)
Definition main : M Script unit :=
  (listing <- run "yarn workspaces list --json" ;;
   print (Logged [VObj [("workspaceListJson", VStr (workspace_list_json listing))]]) ;;;
   parsed <- lift (JSON_parse (workspace_list_json listing)) ;;
   workspacePackages <- lift (workspace_names parsed) ;;
   print (Logged [VStr "Found packages:"; VArr workspacePackages]) ;;;
   in_script (main_loop workspacePackages))%js.

(** [main().catch((error) => ...)], lines 47-49. *)
Definition script : M Script unit :=
  try_catch main (fun error => print (Failed "An error occurred:" error)).

End WithShell.

(** A shell that records the command lines it is given; what a command
    answers may depend on the commands run before it. *)
Definition recording (respond : list string -> string -> Result string)
  : string -> M (list string) string :=
  fun command history => (respond history command, (history ++ [command])%list).

Arguments World : clear implicits.
Arguments Script : clear implicits.

End VersionReporter.

(** ** Sample runtimes, producers and services *)

Module Samples.

Import Cache.

(** Decimal digits of a JSON number, most significant first. *)
Definition digit_value (c : ascii) : option Z :=
  let n := Z.of_nat (nat_of_ascii c) in
  if decide (48 <= n <= 57) then Some (n - 48) else None.

Fixpoint digits_value (acc : Z) (cs : list ascii) : option Z :=
  match cs with
  | [] => Some acc
  | c :: rest => d ← digit_value c; digits_value (10 * acc + d) rest
  end.

(** A JSON integer: an optional minus sign, then [0] or digits that do not
    start with [0]. *)
Definition integer_value (s : string) : option Z :=
  let unsigned cs :=
    match cs with
    | [] => None
    | [c] => digit_value c
    | c :: _ => if decide (c = "0"%char) then None else digits_value 0 cs
    end in
  match String.list_ascii_of_string s with
  | c :: cs => if decide (c = "-"%char) then Z.opp <$> unsigned cs else unsigned (c :: cs)
  | [] => None
  end.

(** [JSON] on scalars: [null], the booleans and the integers are printed
    and read back as the real one does, and [undefined] has no JSON text.
    Strings, arrays and objects are outside this sample: printing one, or
    reading any other text, throws. *)
Definition scalar_json : Json := {|
  JSON_stringify v :=
    match v with
    | VUndefined => Ok None
    | VNull => Ok (Some "null")
    | VBool true => Ok (Some "true")
    | VBool false => Ok (Some "false")
    | VNum n => Ok (Some (pretty n))
    | _ => Throw (TypeError "not a scalar")
    end;
  JSON_parse s :=
    if decide (s = "null") then Ok VNull
    else if decide (s = "true") then Ok (VBool true)
    else if decide (s = "false") then Ok (VBool false)
    else match integer_value s with
         | Some n => Ok (VNum n)
         | None => Throw (mkError "SyntaxError" "Unexpected token")
         end
|}.

(** A producer over a call counter: the [n]-th invocation has the [n]-th
    outcome of the script, and fails once the script is exhausted. *)
Definition scripted (outcomes : list (Result JsVal)) : Cacheable nat :=
  fun n => (default (Throw (mkError "Error" "script exhausted")) (outcomes !! n), S n).

Definition boom : Error := mkError "Error" "database unavailable".
Definition refused : Error := mkError "Error" "connect ECONNREFUSED".

(** An empty, healthy cache service, one whose reads fail and one whose
    writes fail. *)
Definition healthy : Memcached := mkMemcached ∅ None None None.
Definition unreadable : Memcached := mkMemcached ∅ None (Some refused) None.
Definition unwritable : Memcached := mkMemcached ∅ None None (Some refused).

Definition start (mc : Memcached) : World nat := mkWorld mc [] 0%nat.

(** A model whose probe answers from a script indexed by the call counter,
    and whose only operation, [count], is a scripted producer. *)
Definition scripted_model (probes : list (Result (option LatestRecord)))
    (results : list (Result JsVal)) : Model nat :=
  mkModel
    (fun _ n => (default (Throw boom) (probes !! n), S n))
    (fun name => if decide (name = "count") then Some (fun _ => scripted results) else None).

(** [{ where: { isAdmin: true } }], and record 34 as last updated at
    1600345823495. *)
Definition admins : JsVal := VObj [("where", VObj [("isAdmin", VBool true)])].
Definition record34 : LatestRecord := mkLatest (VNum 34) (Some 1600345823495).

Definition with_model (m : Model nat) : CacheLatestOptions nat :=
  mkLatestOptions (Some m) no_options.

(** A registry that answers [null] for package [a], fails for package
    [b], and answers [7] for every other package; the shell state counts
    the commands run. *)
Definition not_found : Error := mkError "Error" "Command failed: yarn npm info b --json".

Definition sample_registry (command : string) : M nat string :=
  fun n =>
    if decide (command = "yarn npm info a --json") then (Ok "null", S n)
    else if decide (command = "yarn npm info b --json") then (Throw not_found, S n)
    else (Ok "7", S n).

(** A producer that always answers [v]. *)
Definition always (v : JsVal) : Cacheable nat := fun n => (Ok v, S n).

(** A store that holds a text under [x] that is not JSON. *)
Definition corrupted : Memcached :=
  mkMemcached {[ "x" := ("4 2", no_options) ]} None None None.

(** A service whose client cannot be created. *)
Definition unreachable : Memcached := mkMemcached ∅ (Some refused) None None.

(** Record 34 after a later update, and a record whose [updatedAt] column
    is [null]. *)
Definition record34_later : LatestRecord := mkLatest (VNum 34) (Some 1600345900000).
Definition record_undated : LatestRecord := mkLatest (VNum 34) None.

(** Another record, updated at the same time as record 34. *)
Definition record35 : LatestRecord := mkLatest (VNum 35) (Some 1600345823495).

(** The line feed as a text. *)
Definition nl : string := String VersionReporter.newline EmptyString.

(** The double quote, and a JSON string literal without escapes. *)
Definition quoted (s : string) : string :=
  String "034"%char EmptyString +:+ s +:+ String "034"%char EmptyString.

(** [{ name: a }] and [{ name: b }] as the listing command prints them,
    and the reply of the registry for a package with an [rc] tag. *)
Definition line_a : string := "{" +:+ quoted "name" +:+ ":" +:+ quoted "a" +:+ "}".
Definition line_b : string := "{" +:+ quoted "name" +:+ ":" +:+ quoted "b" +:+ "}".
Definition rc_reply : string :=
  "{" +:+ quoted "dist-tags" +:+ ":{" +:+ quoted "rc" +:+ ":" +:+ quoted "7.0.0-rc.1" +:+ "}}".

(** The sample [JSON] extended with the two object texts above: the list
    of the two workspaces and the reply with the [rc] tag. *)
Definition registry_json : Json := {|
  JSON_stringify := JSON_stringify (Json := scalar_json);
  JSON_parse s :=
    if decide (s = "[" +:+ line_a +:+ "," +:+ line_b +:+ "]") then
      Ok (VArr [VObj [("name", VStr "a")]; VObj [("name", VStr "b")]])
    else if decide (s = rc_reply) then
      Ok (VObj [("dist-tags", VObj [("rc", VStr "7.0.0-rc.1")])])
    else JSON_parse (Json := scalar_json) s
|}.

(** A shell that lists the workspaces [a] and [b], answers the [rc] reply
    for [a] and fails for [b]; its state counts the commands run. *)
Definition sample_shell (command : string) : M nat string :=
  fun n =>
    if decide (command = "yarn workspaces list --json") then
      (Ok (VersionReporter.unlines [line_a; line_b]), S n)
    else if decide (command = "yarn npm info a --json") then (Ok rc_reply, S n)
    else (Throw not_found, S n).

(** A shell where no command works. *)
Definition no_yarn : Error := mkError "Error" "Command failed: yarn: not found".

Definition broken_shell (command : string) : M nat string :=
  fun n => (Throw no_yarn, S n).

End Samples.

(** ** Facts about [cache] *)

Import Cache.

(** Unfolds one call of [cache] down to the service, the console and the
    producer. *)
Ltac run_cache :=
  unfold cache, cache_miss, catch_set, try_catch, bind, lift, ret,
    memjs_create, memjs_get, memjs_set, console_debug, console_error, invoke;
  simpl.

Section CacheFacts.

Context {Env : Type} {json : Json}.

Implicit Types (key : string) (input : Cacheable Env) (options : option CacheOptions).
Implicit Types (w : World Env) (e : Error) (v : JsVal).

(** When creating the client fails, the outer handler logs the failure and
    calls the producer, whose outcome is the outcome of [cache]. *)
Lemma cache_connect_throws key input options w e r env1 :
  connect_fault (memcached w) = Some e ->
  input (env w) = (r, env1) ->
  cache key input options w =
    (r, mkWorld (memcached w)
          (console w ++ [ConsoleError "Error in cache GET" e; Invoked]) env1).
Proof.
  intros Hconnect Hinput. run_cache.
  rewrite Hconnect. simpl. rewrite Hinput, <- app_assoc. reflexivity.
Qed.

Lemma invocations_app (t1 t2 : list Event) :
  invocations (t1 ++ t2) = (invocations t1 + invocations t2)%nat.
Proof.
  induction t1 as [|ev t1 IH]; [reflexivity|].
  destruct ev; simpl; rewrite IH; reflexivity.
Qed.

(** C1. When the read [memjs.get] throws [e], [cache] logs "Error in cache
    GET" with [e] and then invokes the producer directly, exactly once; the
    outcome of [cache] is the outcome of that invocation (its value, when
    it returns one), the store is left as it was, and [e] is not raised. *)
Theorem cache_get_throws key input options w e r env1 :
  connect_fault (memcached w) = None ->
  get_fault (memcached w) = Some e ->
  input (env w) = (r, env1) ->
  let w' :=
    mkWorld (memcached w) (console w ++ [ConsoleError "Error in cache GET" e; Invoked]) env1 in
  cache key input options w = (r, w') /\
  invocations (console w') = S (invocations (console w)).
Proof.
  intros Hconnect Hget Hinput w'. split.
  - run_cache. rewrite Hconnect. simpl. rewrite Hget. simpl.
    rewrite Hinput, <- app_assoc. reflexivity.
  - subst w'. simpl. rewrite invocations_app. simpl. lia.
Qed.

(** A MISS on a healthy service: one invocation, one write, the value. *)
Lemma cache_miss_stores key input options w v env1 text :
  connect_fault (memcached w) = None ->
  get_fault (memcached w) = None ->
  set_fault (memcached w) = None ->
  entries (memcached w) !! key = None ->
  input (env w) = (Ok v, env1) ->
  JSON_stringify v = Ok (Some text) ->
  cache key input options w =
    (Ok v,
     mkWorld
       (mkMemcached (<[key := (text, default no_options options)]> (entries (memcached w)))
          None None None)
       (console w ++ miss_trace key) env1).
Proof.
  intros Hconnect Hget Hset Hempty Hinput Hprint. unfold miss_trace. run_cache.
  rewrite Hconnect. simpl. rewrite Hget. simpl.
  rewrite Hempty. simpl. rewrite Hinput, Hprint. simpl. rewrite Hset.
  rewrite ?Hconnect, ?Hget, ?Hset, <- app_assoc. reflexivity.
Qed.

(** A HIT: the text found is parsed and returned; the producer, the store
    and the application state are not touched. *)
Lemma cache_hit_reads key input options w text stored_options v :
  connect_fault (memcached w) = None ->
  get_fault (memcached w) = None ->
  entries (memcached w) !! key = Some (text, stored_options) ->
  JSON_parse text = Ok v ->
  cache key input options w =
    (Ok v, mkWorld (memcached w) (console w ++ [ConsoleDebug ("Cache HIT " +:+ key)]) (env w)).
Proof.
  intros Hconnect Hget Hfound Hread. run_cache.
  rewrite Hconnect. simpl. rewrite Hget. simpl. rewrite Hfound. simpl.
  rewrite Hread. reflexivity.
Qed.

(** C2. On a healthy service with no entry at [key], a first call invokes
    the producer once, stores the JSON text of its value under [key] with
    the given options ([{}] when there are none) and returns the value; a
    second call made right after it finds the entry, logs a HIT, and
    returns the value read back from the text without invoking the
    producer.  The value is one that survives [JSON.stringify] followed by
    [JSON.parse]. *)
Theorem cache_miss_then_hit key input options w v env1 text :
  connect_fault (memcached w) = None ->
  get_fault (memcached w) = None ->
  set_fault (memcached w) = None ->
  entries (memcached w) !! key = None ->
  input (env w) = (Ok v, env1) ->
  JSON_stringify v = Ok (Some text) ->
  JSON_parse text = Ok v ->
  let stored :=
    mkMemcached (<[key := (text, default no_options options)]> (entries (memcached w)))
      None None None in
  let w1 := mkWorld stored (console w ++ miss_trace key) env1 in
  cache key input options w = (Ok v, w1) /\
  forall input' options',
    cache key input' options' w1 =
      (Ok v, mkWorld stored (console w1 ++ [ConsoleDebug ("Cache HIT " +:+ key)]) env1).
Proof.
  intros Hconnect Hget Hset Hempty Hinput Hprint Hread stored w1. split.
  - apply cache_miss_stores; assumption.
  - intros input' options'.
    apply (cache_hit_reads key input' options' w1 text (default no_options options));
      [reflexivity | reflexivity | apply lookup_insert_eq | exact Hread].
Qed.

(** C3 (as amended). The primary invocation of the producer sits inside
    the inner [try]: when it throws [e1], the handler logs "Error in cache
    SET" and, the local [data] being still [undefined], invokes the
    producer a second time and returns what that yields.  When the second
    invocation throws as well, the outer handler logs "Error in cache GET"
    and invokes the producer a third time; what reaches the caller is the
    outcome of that last invocation, unmodified. *)
Theorem cache_producer_throws key input options w e1 env1 :
  connect_fault (memcached w) = None ->
  get_fault (memcached w) = None ->
  entries (memcached w) !! key = None ->
  input (env w) = (Throw e1, env1) ->
  cache key input options w =
    match input env1 with
    | (Ok v, env2) => (Ok v, mkWorld (memcached w) (retry_trace w key e1) env2)
    | (Throw e2, env2) =>
        let '(r, env3) := input env2 in
        (r, mkWorld (memcached w)
              (retry_trace w key e1 ++ [ConsoleError "Error in cache GET" e2; Invoked])
              env3)
    end.
Proof.
  intros Hconnect Hget Hempty Hinput. unfold retry_trace, miss_trace. run_cache.
  rewrite Hconnect. simpl. rewrite Hget. simpl. rewrite Hempty. simpl.
  rewrite Hinput. simpl.
  destruct (input env1) as [[v|e2] env2]; simpl.
  - rewrite <- !app_assoc. reflexivity.
  - destruct (input env2) as [r env3]. rewrite <- !app_assoc. reflexivity.
Qed.

(** A failed write after a successful computation of a truthy value: the
    failure is logged and the value computed is returned. *)
Lemma cache_set_throws_truthy key input options w v env1 text e :
  connect_fault (memcached w) = None ->
  get_fault (memcached w) = None ->
  entries (memcached w) !! key = None ->
  input (env w) = (Ok v, env1) ->
  JSON_stringify v = Ok text ->
  set_fault (memcached w) = Some e ->
  truthy v = true ->
  cache key input options w =
    (Ok v, mkWorld (memcached w)
             (console w ++ miss_trace key ++ [ConsoleError "Error in cache SET" e]) env1).
Proof.
  intros Hconnect Hget Hempty Hinput Hprint Hset Htruthy. unfold miss_trace. run_cache.
  rewrite Hconnect. simpl. rewrite Hget. simpl. rewrite Hempty. simpl.
  rewrite Hinput, Hprint. simpl. rewrite Hset. simpl. rewrite Htruthy. simpl.
  rewrite <- !app_assoc. reflexivity.
Qed.

(** The same failure after a falsy value ([0], the empty string, [false],
    [null]): [data || (await input())] takes the value for missing and
    invokes the producer again. *)
Lemma cache_set_throws_falsy key input options w v env1 text e v2 env2 :
  connect_fault (memcached w) = None ->
  get_fault (memcached w) = None ->
  entries (memcached w) !! key = None ->
  input (env w) = (Ok v, env1) ->
  JSON_stringify v = Ok text ->
  set_fault (memcached w) = Some e ->
  truthy v = false ->
  input env1 = (Ok v2, env2) ->
  cache key input options w =
    (Ok v2, mkWorld (memcached w)
              (console w ++ miss_trace key ++ [ConsoleError "Error in cache SET" e; Invoked])
              env2).
Proof.
  intros Hconnect Hget Hempty Hinput Hprint Hset Hfalsy Hagain. unfold miss_trace. run_cache.
  rewrite Hconnect. simpl. rewrite Hget. simpl. rewrite Hempty. simpl.
  rewrite Hinput, Hprint. simpl. rewrite Hset. simpl. rewrite Hfalsy. simpl.
  rewrite Hagain. rewrite <- !app_assoc. reflexivity.
Qed.

End CacheFacts.

Section CacheExamples.

Import Samples.

#[local] Existing Instance scalar_json.

(** A read failure at a concrete input: the producer runs once and its
    value, 42, is returned. *)
Lemma cache_get_throws_witness :
  get_fault unreadable = Some refused /\
  cache "x" (scripted [Ok (VNum 42)]) None (start unreadable) =
    (Ok (VNum 42),
     mkWorld unreadable [ConsoleError "Error in cache GET" refused; Invoked] 1%nat).
Proof.
  split; [reflexivity|].
  apply (proj1 (cache_get_throws "x" (scripted [Ok (VNum 42)]) None (start unreadable)
                  refused (Ok (VNum 42)) 1%nat eq_refl eq_refl eq_refl)).
Defined.

(** The scenario [cache('x', () => 42)] on an empty store, then again. *)
Lemma cache_miss_then_hit_witness :
  let stored := mkMemcached {[ "x" := ("42", no_options) ]} None None None in
  let w1 := mkWorld stored (miss_trace "x") 1%nat in
  cache "x" (scripted [Ok (VNum 42)]) None (start healthy) = (Ok (VNum 42), w1) /\
  cache "x" (scripted [Ok (VNum 42)]) None w1 =
    (Ok (VNum 42), mkWorld stored (miss_trace "x" ++ [ConsoleDebug "Cache HIT x"]) 1%nat).
Proof.
  destruct (cache_miss_then_hit "x" (scripted [Ok (VNum 42)]) None (start healthy)
              (VNum 42) 1%nat "42") as [Hfirst Hsecond];
    [reflexivity | reflexivity | reflexivity | reflexivity | reflexivity
    | vm_compute; reflexivity | vm_compute; reflexivity | ].
  split; [exact Hfirst | exact (Hsecond (scripted [Ok (VNum 42)]) None)].
Defined.

(** C3, the claim as stated fails: a producer that throws on its primary
    invocation and answers 7 when asked again.  [cache] returns 7, nothing
    is raised, and the console shows the handler and the second
    invocation. *)
Lemma cache_retries_failed_producer :
  let input := scripted [Throw boom; Ok (VNum 7)] in
  fst (input (env (start healthy))) = Throw boom /\
  cache "x" input None (start healthy) =
    (Ok (VNum 7),
     mkWorld healthy
       [ConsoleDebug "Cache MISS x"; Invoked;
        ConsoleError "Error in cache SET" boom; Invoked] 2%nat).
Proof. split; reflexivity. Qed.

(** The amended C3 at that input, and at a producer that always throws. *)
Lemma cache_producer_throws_witness :
  cache "x" (scripted [Throw boom; Throw boom; Throw refused]) None (start healthy) =
    (Throw refused,
     mkWorld healthy
       [ConsoleDebug "Cache MISS x"; Invoked;
        ConsoleError "Error in cache SET" boom; Invoked;
        ConsoleError "Error in cache GET" boom; Invoked] 3%nat).
Proof.
  apply (cache_producer_throws "x" (scripted [Throw boom; Throw boom; Throw refused])
           None (start healthy) boom 1%nat); reflexivity.
Defined.

(** C4, the failing input: a producer whose first value is 0, cached on a
    service whose writes fail.  The computation succeeds with 0 and the
    write throws; 0 being falsy, [data || (await input())] invokes the
    producer again.  With a counter, [let n = 0; () => n++], [cache]
    returns 1, not the value that was computed; with a producer that fails
    when asked again, [cache] raises that failure instead of returning 0. *)
Theorem cache_set_throws_recomputes_falsy :
  cache "x" (scripted [Ok (VNum 0); Ok (VNum 1)]) None (start unwritable) =
    (Ok (VNum 1),
     mkWorld unwritable
       [ConsoleDebug "Cache MISS x"; Invoked;
        ConsoleError "Error in cache SET" refused; Invoked] 2%nat) /\
  cache "x" (scripted [Ok (VNum 0); Throw boom; Throw boom]) None (start unwritable) =
    (Throw boom,
     mkWorld unwritable
       [ConsoleDebug "Cache MISS x"; Invoked;
        ConsoleError "Error in cache SET" refused; Invoked;
        ConsoleError "Error in cache GET" boom; Invoked] 3%nat).
Proof. split; reflexivity. Qed.

End CacheExamples.

(** ** Decimal numerals and the separator of derived keys *)

Section Numerals.

#[local] Arguments String.append : simpl nomatch.

Lemma pretty_N_char_no_dash (x : N) : pretty_N_char x <> "-"%char.
Proof. unfold pretty_N_char. repeat case_match; discriminate. Qed.

Lemma pretty_N_go_shape (x : N) (s : string) :
  dash_free s -> s <> "" -> dash_free (pretty_N_go x s) /\ pretty_N_go x s <> "".
Proof.
  revert s. induction (N.lt_wf_0 x) as [x _ IH]. intros s Hfree Hne.
  destruct (decide (x = 0)%N) as [->|Hpos].
  - rewrite pretty_N_go_0. auto.
  - rewrite pretty_N_go_step by lia. apply IH.
    + apply N.div_lt; lia.
    + simpl. split; [apply pretty_N_char_no_dash | exact Hfree].
    + discriminate.
Qed.

Lemma pretty_N_shape (n : N) : dash_free (pretty n) /\ pretty n <> "".
Proof.
  unfold pretty, pretty_N. case_decide as Hn.
  - simpl. split; [split; [discriminate | exact I] | discriminate].
  - rewrite pretty_N_go_step by lia. apply pretty_N_go_shape.
    + simpl. split; [apply pretty_N_char_no_dash | exact I].
    + discriminate.
Qed.

(** A numeral is the digits of its absolute value, after a minus sign when
    it is negative. *)
Lemma pretty_Z_shape (z : Z) :
  (0 <= z /\ dash_free (pretty z) /\ pretty z <> "") \/
  (z < 0 /\ exists d, pretty z = String "-" d /\ dash_free d /\ d <> "").
Proof.
  destruct z as [|p|p].
  - left. split; [lia|]. split; [split; [discriminate | exact I] | discriminate].
  - left. split; [lia|]. apply (pretty_N_shape (Npos p)).
  - right. split; [lia|]. exists (pretty (Npos p)).
    split; [reflexivity | apply (pretty_N_shape (Npos p))].
Qed.

(** Two texts cut at the first minus sign. *)
Lemma cut_at_first_dash (d1 d2 r1 r2 : string) :
  dash_free d1 -> dash_free d2 ->
  d1 +:+ "-" +:+ r1 = d2 +:+ "-" +:+ r2 -> d1 = d2 /\ r1 = r2.
Proof.
  revert d2. induction d1 as [|c d1 IH]; intros [|c' d2]; simpl.
  - intros _ _ [= ->]. auto.
  - intros _ [Hc _] [= <- _]. congruence.
  - intros [Hc _] _ [= -> _]. congruence.
  - intros [_ H1] [_ H2] [= -> Heq]. destruct (IH d2 H1 H2 Heq) as [-> ->]. auto.
Qed.

Lemma dash_free_app_dash (a b : string) : ~ dash_free (a +:+ "-" +:+ b).
Proof. induction a as [|c a IH]; simpl; intros [Hc Hrest]; [congruence | auto]. Qed.

(** Two texts cut at the last minus sign. *)
Lemma cut_at_last_dash (a b d1 d2 : string) :
  dash_free d1 -> dash_free d2 ->
  a +:+ "-" +:+ d1 = b +:+ "-" +:+ d2 -> a = b /\ d1 = d2.
Proof.
  revert b. induction a as [|c a IH]; intros [|c' b]; simpl.
  - intros _ _ [= ->]. auto.
  - intros H1 _ [= <- Heq]. rewrite Heq in H1. destruct (dash_free_app_dash _ _ H1).
  - intros _ H2 [= -> Heq]. rewrite <- Heq in H2. destruct (dash_free_app_dash _ _ H2).
  - intros H1 H2 [= -> Heq]. destruct (IH b H1 H2 Heq) as [-> ->]. auto.
Qed.

(** A numeral followed by a minus sign determines the number and what
    follows. *)
Lemma numeral_then_dash (z1 z2 : Z) (r1 r2 : string) :
  pretty z1 +:+ "-" +:+ r1 = pretty z2 +:+ "-" +:+ r2 -> z1 = z2 /\ r1 = r2.
Proof.
  intros Heq.
  destruct (pretty_Z_shape z1) as [(_ & F1 & N1)|(_ & d1 & E1 & F1 & N1)],
           (pretty_Z_shape z2) as [(_ & F2 & N2)|(_ & d2 & E2 & F2 & N2)].
  - destruct (cut_at_first_dash _ _ _ _ F1 F2 Heq) as [Hz ->].
    split; [exact (inj pretty _ _ Hz) | reflexivity].
  - rewrite E2 in Heq. destruct (pretty z1) as [|c d]; [by destruct N1|].
    simpl in Heq, F1. injection Heq as -> _. destruct F1 as [Hc _]. congruence.
  - rewrite E1 in Heq. destruct (pretty z2) as [|c d]; [by destruct N2|].
    simpl in Heq, F2. injection Heq as <- _. destruct F2 as [Hc _]. congruence.
  - assert (Hd : d1 +:+ "-" +:+ r1 = d2 +:+ "-" +:+ r2).
    { rewrite E1, E2 in Heq. simpl in Heq. injection Heq as Heq. exact Heq. }
    destruct (cut_at_first_dash _ _ _ _ F1 F2 Hd) as [Hz ->].
    split; [|reflexivity]. apply (inj pretty). congruence.
Qed.

Lemma pretty_nonneg_dash_free (z : Z) : 0 <= z -> dash_free (pretty z).
Proof.
  intros Hz. destruct (pretty_Z_shape z) as [(_ & F & _)|(Hneg & _)]; [exact F | lia].
Qed.

Lemma append_assoc (a b c : string) : (a +:+ b) +:+ c = a +:+ b +:+ c.
Proof. induction a as [|x a IH]; simpl; [reflexivity | rewrite IH; reflexivity]. Qed.

Lemma pretty_negative (p : positive) : pretty (Zneg p) = String "-" (pretty (Zpos p)).
Proof. reflexivity. Qed.

Lemma dash_shift (t d : string) :
  t +:+ "-" +:+ String "-" d = (t +:+ "-") +:+ "-" +:+ d.
Proof. rewrite append_assoc. reflexivity. Qed.

Lemma drop_final_dash (t1 t2 : string) : t1 +:+ "-" = t2 +:+ "-" -> t1 = t2.
Proof.
  intros Heq. apply (cut_at_last_dash t1 t2 EmptyString EmptyString I I Heq).
Qed.

(** When an id text and a time, joined by a minus sign, read the same as
    another id text and time, either they are the same text and time, or
    one text is the other with a minus sign more and the times are
    opposite. *)
Lemma text_and_time (t1 t2 : string) (ms1 ms2 : Z) :
  t1 +:+ "-" +:+ pretty ms1 = t2 +:+ "-" +:+ pretty ms2 ->
  (t1 = t2 /\ ms1 = ms2)
  \/ (t1 = t2 +:+ "-" /\ ms2 < 0 /\ ms1 = - ms2)
  \/ (t2 = t1 +:+ "-" /\ ms1 < 0 /\ ms2 = - ms1).
Proof.
  intros Heq.
  destruct (Z_lt_le_dec ms1 0) as [Hneg1|Hpos1], (Z_lt_le_dec ms2 0) as [Hneg2|Hpos2].
  - destruct ms1 as [| |p1]; try lia. destruct ms2 as [| |p2]; try lia.
    rewrite !pretty_negative, !dash_shift in Heq.
    destruct (cut_at_last_dash _ _ _ _
                (pretty_nonneg_dash_free (Zpos p1) ltac:(lia))
                (pretty_nonneg_dash_free (Zpos p2) ltac:(lia)) Heq) as [Ht Hms].
    left. split; [exact (drop_final_dash _ _ Ht)|].
    apply (inj pretty) in Hms. congruence.
  - destruct ms1 as [| |p1]; try lia.
    rewrite pretty_negative, dash_shift in Heq.
    destruct (cut_at_last_dash _ _ _ _
                (pretty_nonneg_dash_free (Zpos p1) ltac:(lia))
                (pretty_nonneg_dash_free ms2 Hpos2) Heq) as [Ht Hms].
    right. right. apply (inj pretty) in Hms. subst ms2. split; [congruence|]. lia.
  - destruct ms2 as [| |p2]; try lia.
    rewrite pretty_negative, dash_shift in Heq.
    destruct (cut_at_last_dash _ _ _ _
                (pretty_nonneg_dash_free ms1 Hpos1)
                (pretty_nonneg_dash_free (Zpos p2) ltac:(lia)) Heq) as [Ht Hms].
    right. left. apply (inj pretty) in Hms. subst ms1. split; [exact Ht|]. lia.
  - destruct (cut_at_last_dash _ _ _ _ (pretty_nonneg_dash_free ms1 Hpos1)
                (pretty_nonneg_dash_free ms2 Hpos2) Heq) as [Ht Hms].
    left. split; [exact Ht|]. exact (inj pretty _ _ Hms).
Qed.

(** The text of a number does not end with a minus sign. *)
Lemma numeral_no_final_dash (n : Z) (t : string) : pretty n <> t +:+ "-".
Proof.
  intros Heq.
  destruct (pretty_Z_shape n) as [(_ & F & _)|(_ & d & E & F & Nd)].
  - rewrite Heq in F. apply (dash_free_app_dash t EmptyString). exact F.
  - rewrite E in Heq. destruct t as [|c t]; simpl in Heq.
    + injection Heq as Hd. exact (Nd Hd).
    + injection Heq as _ Hd. subst d. apply (dash_free_app_dash t EmptyString). exact F.
Qed.

End Numerals.

(** ** Facts about [cacheLatest] *)

Section CacheLatestFacts.

Context {Env : Type} {json : Json}.

Implicit Types (key operationName : string) (options : CacheLatestOptions Env).
Implicit Types (query : LatestQuery) (conditions : JsVal).
Implicit Types (w : World Env) (e : Error) (r : LatestRecord).

(** The operation name and the conditions [cacheLatest] works with are
    those of the first entry of the query. *)
Lemma first_entry operationName conditions (others : LatestQuery) :
  let query := (operationName, conditions) :: others in
  head (Object_keys query) = Some operationName /\
  default VUndefined (lookup_field (prop_name (head (Object_keys query))) query) = conditions.
Proof. simpl. rewrite decide_True by reflexivity. auto. Qed.

(** When the probe and the key succeed, [cacheLatest] is [cache] at the
    derived key, with the original operation as the producer. *)
Lemma cacheLatest_probe_ok key options operationName conditions others w latest env1 k :
  call_findFirst (model options) (probe_args conditions) (env w) = (Ok latest, env1) ->
  derived_key key latest = Ok k ->
  cacheLatest key options ((operationName, conditions) :: others) w =
    cache k (call_model (model options) (Some operationName) conditions)
      (Some (rest options)) (mkWorld (memcached w) (console w) env1).
Proof.
  intros Hprobe Hkey. unfold cacheLatest.
  destruct (first_entry operationName conditions others) as [-> ->].
  unfold on_env, bind, lift. rewrite Hprobe, Hkey. reflexivity.
Qed.

(** When the probe or the key throws [e], [cacheLatest] logs [e] and issues
    the original operation directly; its outcome is the outcome of
    [cacheLatest], and the cache service is not involved. *)
Lemma cacheLatest_fallback key options operationName conditions others w outcome env1 e res env2 :
  call_findFirst (model options) (probe_args conditions) (env w) = (outcome, env1) ->
  outcome = Throw e \/ (exists latest, outcome = Ok latest /\ derived_key key latest = Throw e) ->
  call_model (model options) (Some operationName) conditions env1 = (res, env2) ->
  cacheLatest key options ((operationName, conditions) :: others) w =
    (res, mkWorld (memcached w) (console w ++ [ConsoleError "Error in cacheLatest" e]) env2).
Proof.
  intros Hprobe Hfail Hdirect. unfold cacheLatest.
  destruct (first_entry operationName conditions others) as [-> ->].
  unfold on_env, bind, lift, console_error. rewrite Hprobe.
  destruct Hfail as [-> | (latest & -> & Hkey)]; [| rewrite Hkey]; simpl;
    rewrite Hdirect; reflexivity.
Qed.

(** Records in a dash collision have the same key. *)
Lemma dash_collision_same_key key r1 r2 ms1 ms2 :
  updatedAt r1 = Some ms1 ->
  updatedAt r2 = Some ms2 ->
  dash_collision r1 r2 ->
  key +:+ "-" +:+ to_string (id r1) +:+ "-" +:+ pretty ms1
  = key +:+ "-" +:+ to_string (id r2) +:+ "-" +:+ pretty ms2.
Proof.
  intros H1 H2. unfold dash_collision. rewrite H1, H2. intros (Ht & Hneg & Hms).
  destruct ms2 as [| |p2]; try lia. subst ms1. simpl Z.opp.
  rewrite Ht, pretty_negative, dash_shift. reflexivity.
Qed.

(** C5 (as amended). With a latest record [r1] whose update time is
    [ms1], the key [cacheLatest] hands to [cache] is [key-id-ms1]: the
    prefix, the id and the epoch milliseconds, separated by minus signs.
    Equal records give equal keys.  A change of the update time alone
    always gives a different key.  A change between two numeric ids always
    gives a different key, and so does a change between two string ids,
    with one exception: when one id is the other followed by a minus sign
    and the update times are opposite, the shorter id before the epoch.
    In that case the two keys are the same.  In general two records have
    the same key exactly when their ids print the same and their update
    times are equal, or they are in that exceptional case. *)
Theorem derived_key_distinguishes key r1 r2 ms1 ms2 :
  updatedAt r1 = Some ms1 ->
  updatedAt r2 = Some ms2 ->
  let k1 := key +:+ "-" +:+ to_string (id r1) +:+ "-" +:+ pretty ms1 in
  let k2 := key +:+ "-" +:+ to_string (id r2) +:+ "-" +:+ pretty ms2 in
  derived_key key (Some r1) = Ok k1 /\
  (forall options operationName conditions others w env1,
     call_findFirst (model options) (probe_args conditions) (env w) = (Ok (Some r1), env1) ->
     cacheLatest key options ((operationName, conditions) :: others) w =
       cache k1 (call_model (model options) (Some operationName) conditions)
         (Some (rest options)) (mkWorld (memcached w) (console w) env1)) /\
  (r1 = r2 -> k1 = k2) /\
  (id r1 = id r2 -> ms1 <> ms2 -> k1 <> k2) /\
  (forall n1 n2, id r1 = VNum n1 -> id r2 = VNum n2 -> r1 <> r2 -> k1 <> k2) /\
  (same_kind_ids r1 r2 -> r1 <> r2 ->
   ~ dash_collision r1 r2 -> ~ dash_collision r2 r1 -> k1 <> k2) /\
  (dash_collision r1 r2 -> k1 = k2) /\
  (k1 = k2 <->
   (to_string (id r1) = to_string (id r2) /\ ms1 = ms2)
   \/ dash_collision r1 r2 \/ dash_collision r2 r1).
Proof.
  intros H1 H2 k1 k2.
  assert (Hk1 : derived_key key (Some r1) = Ok k1).
  { unfold derived_key. rewrite H1. reflexivity. }
  assert (Hcut : k1 = k2 ->
                 to_string (id r1) +:+ "-" +:+ pretty ms1
                 = to_string (id r2) +:+ "-" +:+ pretty ms2).
  { intros Heq. apply (inj (String.app key)) in Heq. injection Heq as Heq. exact Heq. }
  assert (Hnum : forall n1 n2, id r1 = VNum n1 -> id r2 = VNum n2 -> r1 <> r2 -> k1 <> k2).
  { intros n1 n2 Hid1 Hid2 Hne Heq. apply Hne. apply Hcut in Heq.
    rewrite Hid1, Hid2 in Heq. simpl in Heq.
    destruct (numeral_then_dash _ _ _ _ Heq) as [-> Hms]. apply (inj pretty) in Hms.
    destruct r1, r2. simpl in *. congruence. }
  split; [exact Hk1|]. split; [|split; [|split; [|split; [exact Hnum|split; [|split]]]]].
  - intros options operationName conditions others w env1 Hprobe.
    apply (cacheLatest_probe_ok key options operationName conditions others w
             (Some r1) env1 k1 Hprobe Hk1).
  - intros ->. subst k1 k2. congruence.
  - intros Hid Hms Heq. apply Hms. apply Hcut in Heq. rewrite Hid in Heq.
    apply (inj (String.app (to_string (id r2)))) in Heq. injection Heq as Heq.
    exact (inj pretty _ _ Heq).
  - intros Hkind Hne Hno12 Hno21 Heq. unfold same_kind_ids in Hkind.
    destruct (id r1) as [| | | n1 | s1 | |] eqn:Hid1,
             (id r2) as [| | | n2 | s2 | |] eqn:Hid2; try contradiction.
    + exact (Hnum n1 n2 eq_refl eq_refl Hne Heq).
    + apply Hcut in Heq. simpl in Heq.
      destruct (text_and_time _ _ _ _ Heq) as [[Hs Hms]|[Hshape|Hshape]].
      * apply Hne. destruct r1, r2. simpl in *. congruence.
      * apply Hno12. unfold dash_collision. rewrite H1, H2, Hid1, Hid2. exact Hshape.
      * apply Hno21. unfold dash_collision. rewrite H1, H2, Hid1, Hid2. exact Hshape.
  - apply dash_collision_same_key; assumption.
  - split.
    + intros Heq. apply Hcut in Heq.
      destruct (text_and_time _ _ _ _ Heq) as [Hsame|[Hshape|Hshape]].
      * left. exact Hsame.
      * right. left. unfold dash_collision. rewrite H1, H2. exact Hshape.
      * right. right. unfold dash_collision. rewrite H1, H2. exact Hshape.
    + intros [[Ht ->]|[Hcoll|Hcoll]].
      * subst k1 k2. rewrite Ht. reflexivity.
      * apply dash_collision_same_key; assumption.
      * symmetry. apply dash_collision_same_key; assumption.
Qed.

(** C6. For a single-entry query, when the probe throws or finds no
    record, [cacheLatest] logs the error and returns what the original
    operation [model[operationName](conditions)] yields when issued
    directly: the cache service is left as it was, nothing is read from it
    or written to it, so the result over an empty set of records is never
    cached. *)
Theorem cacheLatest_probe_fails key options operationName conditions w outcome env1 res env2 :
  call_findFirst (model options) (probe_args conditions) (env w) = (outcome, env1) ->
  (exists e, outcome = Throw e) \/ outcome = Ok None ->
  call_model (model options) (Some operationName) conditions env1 = (res, env2) ->
  exists e,
    cacheLatest key options [(operationName, conditions)] w =
      (res, mkWorld (memcached w) (console w ++ [ConsoleError "Error in cacheLatest" e]) env2).
Proof.
  intros Hprobe Hfail Hdirect. destruct Hfail as [[e ->] | ->].
  - exists e. eapply cacheLatest_fallback; eauto.
  - eexists. eapply cacheLatest_fallback; [exact Hprobe | | exact Hdirect].
    right. exists None. split; reflexivity.
Qed.

(** C7. Two calls with the same key and filter while the latest record
    stays the same: the first one misses at the derived key, runs the real
    query once and stores its result; the second one derives the same key,
    finds the entry and returns it, with no invocation of the real query
    (its only effect on the application state is the probe). *)
Theorem cacheLatest_second_call_hits key options operationName conditions w r ms
    env1 v env2 text env3 :
  let query := [(operationName, conditions)] in
  let k := key +:+ "-" +:+ to_string (id r) +:+ "-" +:+ pretty ms in
  connect_fault (memcached w) = None ->
  get_fault (memcached w) = None ->
  set_fault (memcached w) = None ->
  call_findFirst (model options) (probe_args conditions) (env w) = (Ok (Some r), env1) ->
  updatedAt r = Some ms ->
  entries (memcached w) !! k = None ->
  call_model (model options) (Some operationName) conditions env1 = (Ok v, env2) ->
  JSON_stringify v = Ok (Some text) ->
  JSON_parse text = Ok v ->
  call_findFirst (model options) (probe_args conditions) env2 = (Ok (Some r), env3) ->
  let stored :=
    mkMemcached (<[k := (text, rest options)]> (entries (memcached w))) None None None in
  let w1 := mkWorld stored (console w ++ miss_trace k) env2 in
  cacheLatest key options query w = (Ok v, w1) /\
  cacheLatest key options query w1 =
    (Ok v, mkWorld stored (console w1 ++ [ConsoleDebug ("Cache HIT " +:+ k)]) env3).
Proof.
  intros query k Hconnect Hget Hset Hprobe Hms Hempty Hquery Hprint Hread Hprobe2 stored w1.
  assert (Hk : derived_key key (Some r) = Ok k).
  { unfold derived_key. rewrite Hms. reflexivity. }
  split.
  - unfold query. rewrite (cacheLatest_probe_ok _ _ _ _ _ _ _ _ _ Hprobe Hk).
    apply (cache_miss_stores k _ (Some (rest options))
             (mkWorld (memcached w) (console w) env1)); assumption.
  - unfold query. rewrite (cacheLatest_probe_ok key options operationName conditions []
                             w1 (Some r) env3 k Hprobe2 Hk).
    apply (cache_hit_reads k _ _ (mkWorld (memcached w1) (console w1) env3)
             text (rest options));
      [reflexivity | reflexivity | apply lookup_insert_eq | exact Hread].
Qed.

(** C8 (as amended). The direct call of the fallback path is made from
    inside the [catch] handler and nothing guards it: when the probe throws
    [e] and the direct call [model[operationName](conditions)] throws [e'],
    [cacheLatest] logs [e] and raises [e'] to its caller, unmodified. *)
Theorem cacheLatest_fallback_unguarded key options operationName conditions w e env1 e' env2 :
  call_findFirst (model options) (probe_args conditions) (env w) = (Throw e, env1) ->
  call_model (model options) (Some operationName) conditions env1 = (Throw e', env2) ->
  cacheLatest key options [(operationName, conditions)] w =
    (Throw e',
     mkWorld (memcached w) (console w ++ [ConsoleError "Error in cacheLatest" e]) env2).
Proof.
  intros Hprobe Hdirect. eapply cacheLatest_fallback; eauto.
Qed.

(** C10. A query with several entries is accepted as it is.  The probe
    is made with the conditions of the first entry enumerated, and the
    operation that is run, as the producer handed to [cache] when the probe
    gives a key, or directly when it does not, is the one the first entry
    names, on these same conditions.  The other entries play no part: the
    call is the call on the query made of the first entry alone. *)
Theorem cacheLatest_first_entry_only key options operationName conditions others w
    outcome env1 :
  call_findFirst (model options) (probe_args conditions) (env w) = (outcome, env1) ->
  let query := (operationName, conditions) :: others in
  let original := call_model (model options) (Some operationName) conditions in
  let w1 := mkWorld (memcached w) (console w) env1 in
  let fallback e := (console_error "Error in cacheLatest" e ;;; on_env original)%js w1 in
  cacheLatest key options query w =
    match outcome with
    | Ok latest =>
        match derived_key key latest with
        | Ok k => cache k original (Some (rest options)) w1
        | Throw e => fallback e
        end
    | Throw e => fallback e
    end
  /\ cacheLatest key options query w = cacheLatest key options [(operationName, conditions)] w.
Proof.
  intros Hprobe query original w1 fallback. split.
  - unfold query, cacheLatest.
    destruct (first_entry operationName conditions others) as [-> ->].
    unfold on_env at 1. unfold bind at 1. unfold lift. rewrite Hprobe.
    destruct outcome as [latest|e]; [destruct (derived_key key latest)|]; reflexivity.
  - unfold query, cacheLatest.
    destruct (first_entry operationName conditions others) as [-> ->].
    destruct (first_entry operationName conditions []) as [-> ->].
    reflexivity.
Qed.

End CacheLatestFacts.

Section CacheLatestExamples.

Import Samples.

#[local] Existing Instance scalar_json.

(** The scenario of the source comment, prefix [posts] and record 34:
    its key, which a later update changes, and which differs from the key
    of record 35. *)
Lemma derived_key_distinguishes_witness :
  derived_key "posts" (Some record34) = Ok "posts-34-1600345823495" /\
  "posts-34-1600345823495" <> "posts-34-1600345900000" /\
  "posts-34-1600345823495" <> "posts-35-1600345823495".
Proof.
  destruct (derived_key_distinguishes (Env := nat) "posts" record34 record34_later
              1600345823495 1600345900000 eq_refl eq_refl)
    as (Hkey & _ & _ & Hlater & _).
  destruct (derived_key_distinguishes (Env := nat) "posts" record34 record35
              1600345823495 1600345823495 eq_refl eq_refl)
    as (_ & _ & _ & _ & Hother & _).
  vm_compute in Hkey. split; [exact Hkey|]. split.
  - intros Heq. apply Hlater; [reflexivity | discriminate |]. vm_compute. exact Heq.
  - intros Heq. apply (Hother 34 35); [reflexivity | reflexivity | discriminate |].
    vm_compute. exact Heq.
Defined.

(** C5, the claim as stated fails: a record with the string id [a-]
    updated 5 ms after the epoch and a record with the id [a] updated 5 ms
    before it differ in id and in update time, and get the same key. *)
Lemma derived_key_collision :
  let r1 := mkLatest (VStr "a-") (Some 5) in
  let r2 := mkLatest (VStr "a") (Some (-5)) in
  id r1 <> id r2 /\ updatedAt r1 <> updatedAt r2 /\
  derived_key "posts" (Some r1) = Ok "posts-a--5" /\
  derived_key "posts" (Some r2) = Ok "posts-a--5".
Proof. repeat split; try discriminate; vm_compute; reflexivity. Qed.

(** A probe that finds no record: the count is asked directly, and the
    store stays empty. *)
Lemma cacheLatest_probe_fails_witness :
  exists e,
    cacheLatest "posts" (with_model (scripted_model [Ok None] [Throw boom; Ok (VNum 0)]))
      [("count", admins)] (start healthy) =
    (Ok (VNum 0), mkWorld healthy [ConsoleError "Error in cacheLatest" e] 2%nat).
Proof.
  apply (cacheLatest_probe_fails "posts"
           (with_model (scripted_model [Ok None] [Throw boom; Ok (VNum 0)]))
           "count" admins (start healthy) (Ok None) 1%nat (Ok (VNum 0)) 2%nat);
    [reflexivity | right; reflexivity | reflexivity].
Defined.

(** Two calls around an unchanged record 34. *)
Lemma cacheLatest_second_call_hits_witness :
  let options :=
    with_model (scripted_model [Ok (Some record34); Throw boom; Ok (Some record34)]
                  [Throw boom; Ok (VNum 3)]) in
  let k := "posts-34-1600345823495" in
  let stored := mkMemcached {[ k := ("3", no_options) ]} None None None in
  let w1 := mkWorld stored (miss_trace k) 2%nat in
  cacheLatest "posts" options [("count", admins)] (start healthy) = (Ok (VNum 3), w1) /\
  cacheLatest "posts" options [("count", admins)] w1 =
    (Ok (VNum 3), mkWorld stored (miss_trace k ++ [ConsoleDebug ("Cache HIT " +:+ k)]) 3%nat).
Proof.
  intros options k stored w1.
  destruct (cacheLatest_second_call_hits "posts" options "count" admins (start healthy)
              record34 1600345823495 1%nat (VNum 3) 2%nat "3" 3%nat)
    as [Hfirst Hsecond];
    [reflexivity | reflexivity | reflexivity | reflexivity | reflexivity
    | vm_compute; reflexivity | reflexivity | vm_compute; reflexivity
    | vm_compute; reflexivity | reflexivity | ].
  split; [exact Hfirst | exact Hsecond].
Defined.

(** A query with two entries: [count] comes first, so the count is what
    is run, cached under the derived key and returned; the second entry,
    which names an operation the model does not have, changes nothing. *)
Lemma cacheLatest_first_entry_only_witness :
  let k := "posts-34-1600345823495" in
  cacheLatest "posts"
    (with_model (scripted_model [Ok (Some record34)] [Throw boom; Ok (VNum 3)]))
    [("count", admins); ("findMany", VNull)] (start healthy) =
  (Ok (VNum 3),
   mkWorld (mkMemcached {[ k := ("3", no_options) ]} None None None) (miss_trace k) 2%nat).
Proof.
  intros k.
  destruct (cacheLatest_first_entry_only "posts"
              (with_model (scripted_model [Ok (Some record34)] [Throw boom; Ok (VNum 3)]))
              "count" admins [("findMany", VNull)] (start healthy)
              (Ok (Some record34)) 1%nat eq_refl) as [Hfirst _].
  rewrite Hfirst. vm_compute. reflexivity.
Defined.

(** C8, the claim as stated fails: the probe throws, the direct call
    throws, and [cacheLatest] raises the error of the direct call. *)
Lemma cacheLatest_fallback_raises :
  cacheLatest "posts" (with_model (scripted_model [Throw boom] [Throw boom; Throw refused]))
    [("count", admins)] (start healthy) =
  (Throw refused, mkWorld healthy [ConsoleError "Error in cacheLatest" boom] 2%nat).
Proof. reflexivity. Qed.

Lemma cacheLatest_fallback_unguarded_witness :
  cacheLatest "posts" (with_model (scripted_model [Throw boom] [Throw boom; Throw refused]))
    [("count", admins)] (start healthy) =
  (Throw refused, mkWorld healthy [ConsoleError "Error in cacheLatest" boom] 2%nat).
Proof.
  apply (cacheLatest_fallback_unguarded "posts"
           (with_model (scripted_model [Throw boom] [Throw boom; Throw refused]))
           "count" admins (start healthy) boom 1%nat refused 2%nat); reflexivity.
Defined.

End CacheLatestExamples.

(** ** Facts about the loop of [main] *)

Section VersionReporterFacts.

Import VersionReporter.

Context {Shell : Type} (execSync : string -> M Shell string) {json : Json}.

Implicit Types (w : World Shell) (p : JsVal) (pkgs before after : list JsVal).

#[local] Abbreviation report_package := (VersionReporter.report_package execSync).
#[local] Abbreviation main_loop := (VersionReporter.main_loop execSync).

(** The body of the loop never throws, and leaves exactly one line, about
    its package. *)
Lemma report_package_total p w :
  exists sh l,
    report_package p w = (Ok tt, mkWorld sh (console w ++ [l])) /\ about p l.
Proof.
  unfold VersionReporter.report_package, try_catch, bind, exec, lift,
    console_log, console_error.
  destruct (execSync (info_command p) (shell w)) as [[reply|e] sh]; simpl.
  - destruct (JSON_parse reply) as [packageInfo|e]; simpl.
    + destruct (get_prop packageInfo "dist-tags") as [tags|e]; simpl.
      * destruct (and_then tags (get_prop tags "rc")) as [rc|e]; simpl.
        -- destruct (truthy rc); simpl; eexists _, _; (split; [reflexivity|]);
             unfold about; eauto.
        -- eexists _, _. split; [reflexivity|]. unfold about. eauto.
      * eexists _, _. split; [reflexivity|]. unfold about. eauto.
    + eexists _, _. split; [reflexivity|]. unfold about. eauto.
  - eexists _, _. split; [reflexivity|]. unfold about. eauto.
Qed.

(** The loop never throws, whatever the registry does, and leaves one line
    per package, in the order of the packages. *)
Lemma main_loop_total pkgs w :
  exists sh lines,
    main_loop pkgs w = (Ok tt, mkWorld sh (console w ++ lines)) /\ Forall2 about pkgs lines.
Proof.
  revert w. induction pkgs as [|p pkgs IH]; intros w.
  - exists (shell w), []. split; [|constructor].
    simpl. unfold ret. rewrite app_nil_r. destruct w; reflexivity.
  - destruct (report_package_total p w) as (sh1 & l & Hone & Habout).
    destruct (IH (mkWorld sh1 (console w ++ [l]))) as (sh & lines & Hrest & Hall).
    exists sh, (l :: lines). split; [|constructor; assumption].
    simpl. unfold bind. rewrite Hone, Hrest. simpl. rewrite <- app_assoc. reflexivity.
Qed.

(** The packages are processed one after the other: the loop over a list
    resumes, after a prefix, in the state the prefix left. *)
Lemma main_loop_app before after w :
  main_loop (before ++ after) w = main_loop after (snd (main_loop before w)).
Proof.
  revert w. induction before as [|p before IH]; intros w; [reflexivity|].
  simpl. unfold bind.
  destruct (report_package_total p w) as (sh1 & l & -> & _). apply IH.
Qed.

(** A failed query or parse leaves the error line with the message. *)
Lemma report_package_failure p w e sh' :
  fetch_fails execSync p w e sh' ->
  report_package p w =
    (Ok tt,
     mkWorld sh'
       (console w ++
        [ConsoleError ("Error fetching information for " +:+ to_string p +:+ ":")
           (err_message e)])).
Proof.
  unfold VersionReporter.report_package, try_catch, bind, exec, lift, console_error.
  intros [Hexec | (reply & Hexec & Hparse)]; rewrite Hexec; simpl;
    [| rewrite Hparse]; reflexivity.
Qed.

(** C9. For every sequence of packages the loop returns normally and
    leaves one console line per package, in order.  When the registry query
    or the parse of its reply fails for a package, the failure is logged
    with the error message and the loop carries on with the packages that
    follow, from the state the failure left. *)
Theorem main_loop_isolates_failures pkgs w :
  (exists sh lines,
     main_loop pkgs w = (Ok tt, mkWorld sh (console w ++ lines)) /\
     Forall2 about pkgs lines) /\
  (forall before p after e sh',
     pkgs = (before ++ p :: after)%list ->
     let w1 := snd (main_loop before w) in
     fetch_fails execSync p w1 e sh' ->
     main_loop pkgs w =
       main_loop after
         (mkWorld sh'
            (console w1 ++
             [ConsoleError ("Error fetching information for " +:+ to_string p +:+ ":")
                (err_message e)]))).
Proof.
  split; [apply main_loop_total|].
  intros before p after e sh' -> w1 Hfails.
  rewrite main_loop_app. fold w1. simpl. unfold bind at 1.
  rewrite (report_package_failure p w1 e sh' Hfails). reflexivity.
Qed.

End VersionReporterFacts.

Section VersionReporterExamples.

Import VersionReporter Samples.

(** Three packages, the first two failing: [a] in the reply (a [null]
    has no [dist-tags]), [b] in the query.  All three are reported. *)
Lemma main_loop_isolates_failures_witness :
  main_loop sample_registry (json := scalar_json) [VStr "a"; VStr "b"; VStr "c"]
    (mkWorld 0%nat []) =
  (Ok tt,
   mkWorld 3%nat
     [ConsoleError "Error fetching information for a:"
        "Cannot read properties of null (reading 'dist-tags')";
      ConsoleError "Error fetching information for b:"
        "Command failed: yarn npm info b --json";
      ConsoleLog "No RC version found for c"]).
Proof.
  destruct (main_loop_isolates_failures sample_registry (json := scalar_json)
              [VStr "a"; VStr "b"; VStr "c"] (mkWorld 0%nat [])) as [_ Hcontinues].
  rewrite (Hcontinues [VStr "a"] (VStr "b") [VStr "c"] not_found 2%nat eq_refl);
    [reflexivity | left; reflexivity].
Defined.

End VersionReporterExamples.

(** ** More about [cache]: every path *)

Section CacheEveryPath.

Context {Env : Type} {json : Json}.

Implicit Types (key : string) (input : Cacheable Env) (options : option CacheOptions).
Implicit Types (w : World Env) (e : Error) (v : JsVal).

(** Whatever [cache] throws was thrown by the producer, in the invocation
    it made last: a failure of the cache service or of [JSON] is never what
    the caller gets. *)
Theorem cache_raises_only_producer_errors key input options w e w' :
  cache key input options w = (Throw e, w') ->
  exists env0, input env0 = (Throw e, env w').
Proof.
  unfold cache, cache_miss, catch_set, try_catch, bind, lift, ret,
    memjs_create, memjs_get, memjs_set, console_debug, console_error, invoke.
  simpl. intros Hcache.
  repeat (case_match; simpl in *; simplify_eq/=); eauto.
Qed.

(** One call of [cache] invokes the producer three times at most. *)
Theorem cache_invokes_at_most_thrice key input options w :
  (invocations (console (snd (cache key input options w)))
   <= invocations (console w) + 3)%nat.
Proof.
  unfold cache, cache_miss, catch_set, try_catch, bind, lift, ret,
    memjs_create, memjs_get, memjs_set, console_debug, console_error, invoke.
  simpl.
  repeat (case_match; simpl in *; simplify_eq/=);
    rewrite ?invocations_app; simpl; lia.
Qed.

(** [cache] never overwrites and never removes: an entry the store holds
    before the call, under any key, is there unchanged after it. *)
Theorem cache_keeps_entries key input options w k entry :
  entries (memcached w) !! k = Some entry ->
  entries (memcached (snd (cache key input options w))) !! k = Some entry.
Proof.
  intros Hentry.
  unfold cache, cache_miss, catch_set, try_catch, bind, lift, ret,
    memjs_create, memjs_get, memjs_set, console_debug, console_error, invoke.
  simpl.
  repeat (case_match; simpl in *; simplify_eq/=); try assumption;
    rewrite lookup_insert_ne; try assumption;
    intros ->; rewrite Hentry in *; simpl in *; discriminate.
Qed.

(** [cache] writes under [key] only: what the store holds, or does not
    hold, under any other key is the same after the call. *)
Theorem cache_touches_only_key key input options w k :
  k <> key ->
  entries (memcached (snd (cache key input options w))) !! k = entries (memcached w) !! k.
Proof.
  intros Hother.
  unfold cache, cache_miss, catch_set, try_catch, bind, lift, ret,
    memjs_create, memjs_get, memjs_set, console_debug, console_error, invoke.
  simpl.
  repeat (case_match; simpl in *; simplify_eq/=); try reflexivity;
    apply lookup_insert_ne; congruence.
Qed.

(** A HIT on a text that [JSON.parse] rejects: the HIT is logged, then the
    parse error as "Error in cache GET", and the producer is invoked once;
    its outcome is returned and the text stays in the store as it is. *)
Theorem cache_hit_unparsable key input options w text stored_options e r env1 :
  connect_fault (memcached w) = None ->
  get_fault (memcached w) = None ->
  entries (memcached w) !! key = Some (text, stored_options) ->
  JSON_parse text = Throw e ->
  input (env w) = (r, env1) ->
  cache key input options w =
    (r, mkWorld (memcached w)
          (console w ++ [ConsoleDebug ("Cache HIT " +:+ key);
                         ConsoleError "Error in cache GET" e; Invoked]) env1).
Proof.
  intros Hconnect Hget Hfound Hparse Hinput. run_cache.
  rewrite Hconnect. simpl. rewrite Hget. simpl. rewrite Hfound. simpl.
  rewrite Hparse. simpl. rewrite Hinput, <- !app_assoc. reflexivity.
Qed.

(** A value that [JSON.stringify] rejects: when the value is truthy, the
    failure is logged as "Error in cache SET" and the value is returned
    from the single invocation; nothing is written. *)
Theorem cache_stringify_throws_truthy key input options w v env1 e :
  connect_fault (memcached w) = None ->
  get_fault (memcached w) = None ->
  entries (memcached w) !! key = None ->
  input (env w) = (Ok v, env1) ->
  JSON_stringify v = Throw e ->
  truthy v = true ->
  cache key input options w =
    (Ok v, mkWorld (memcached w)
             (console w ++ miss_trace key ++ [ConsoleError "Error in cache SET" e]) env1).
Proof.
  intros Hconnect Hget Hempty Hinput Hprint Htruthy. unfold miss_trace. run_cache.
  rewrite Hconnect. simpl. rewrite Hget. simpl. rewrite Hempty. simpl.
  rewrite Hinput, Hprint. simpl. rewrite Htruthy. simpl.
  rewrite <- !app_assoc. reflexivity.
Qed.

End CacheEveryPath.

Section CacheEveryPathExamples.

Import Samples.

#[local] Existing Instance scalar_json.

(** A producer that fails three times makes [cache] fail with its third
    error. *)
Lemma cache_raises_only_producer_errors_witness :
  exists env0,
    scripted [Throw boom; Throw boom; Throw refused] env0 = (Throw refused, 3%nat).
Proof.
  apply (cache_raises_only_producer_errors "x"
           (scripted [Throw boom; Throw boom; Throw refused]) None (start healthy) refused
           (mkWorld healthy
              [ConsoleDebug "Cache MISS x"; Invoked;
               ConsoleError "Error in cache SET" boom; Invoked;
               ConsoleError "Error in cache GET" boom; Invoked] 3%nat)).
  reflexivity.
Defined.

(** A call for another key on a store that holds [x]. *)
Lemma cache_keeps_entries_witness :
  entries (memcached (snd (cache "y" (always (VNum 1)) None (start corrupted)))) !! "x"
  = Some ("4 2", no_options).
Proof.
  apply (cache_keeps_entries "y" (always (VNum 1)) None (start corrupted) "x").
  reflexivity.
Defined.

Lemma cache_touches_only_key_witness :
  entries (memcached (snd (cache "x" (always (VNum 1)) None (start healthy)))) !! "y"
  = None.
Proof.
  apply (cache_touches_only_key "x" (always (VNum 1)) None (start healthy) "y").
  discriminate.
Defined.

(** The text [4 2] is not JSON: the producer answers instead. *)
Lemma cache_hit_unparsable_witness :
  cache "x" (always (VNum 42)) None (start corrupted) =
    (Ok (VNum 42),
     mkWorld corrupted
       [ConsoleDebug "Cache HIT x";
        ConsoleError "Error in cache GET" (mkError "SyntaxError" "Unexpected token");
        Invoked] 1%nat).
Proof.
  apply (cache_hit_unparsable "x" (always (VNum 42)) None (start corrupted)
           "4 2" no_options (mkError "SyntaxError" "Unexpected token")
           (Ok (VNum 42)) 1%nat); reflexivity.
Defined.

(** A string is outside the sample [JSON]: it is returned uncached. *)
Lemma cache_stringify_throws_truthy_witness :
  cache "x" (always (VStr "posts")) None (start healthy) =
    (Ok (VStr "posts"),
     mkWorld healthy
       (miss_trace "x" ++ [ConsoleError "Error in cache SET" (TypeError "not a scalar")])
       1%nat).
Proof.
  apply (cache_stringify_throws_truthy "x" (always (VStr "posts")) None (start healthy)
           (VStr "posts") 1%nat (TypeError "not a scalar")); reflexivity.
Defined.

(** A failed write after a truthy value: 42 is returned. *)
Lemma cache_set_throws_truthy_witness :
  cache "x" (always (VNum 42)) None (start unwritable) =
    (Ok (VNum 42),
     mkWorld unwritable
       (miss_trace "x" ++ [ConsoleError "Error in cache SET" refused]) 1%nat).
Proof.
  apply (cache_set_throws_truthy "x" (always (VNum 42)) None (start unwritable)
           (VNum 42) 1%nat (Some "42") refused);
    try reflexivity; vm_compute; reflexivity.
Defined.

(** A client that cannot be created: the producer answers. *)
Lemma cache_connect_throws_witness :
  cache "x" (always (VNum 42)) None (start unreachable) =
    (Ok (VNum 42),
     mkWorld unreachable [ConsoleError "Error in cache GET" refused; Invoked] 1%nat).
Proof.
  apply (cache_connect_throws "x" (always (VNum 42)) None (start unreachable)
           refused (Ok (VNum 42)) 1%nat); reflexivity.
Defined.

End CacheEveryPathExamples.

(** ** More about [cacheLatest] *)

Section CacheLatestEveryPath.

Context {Env : Type} {json : Json}.

Implicit Types (key operationName : string) (options : CacheLatestOptions Env).
Implicit Types (query : LatestQuery) (conditions : JsVal).
Implicit Types (w : World Env) (e : Error) (r : LatestRecord).

(** Reading a field back after [set_field]. *)
Lemma lookup_set_field k v (fields : list (string * JsVal)) k' :
  lookup_field k' (set_field k v fields) =
    if decide (k' = k) then Some v else lookup_field k' fields.
Proof.
  induction fields as [|[k0 v0] fields IH]; simpl.
  - repeat case_decide; congruence.
  - repeat (case_decide; simpl); congruence.
Qed.

(** The probe always asks for the latest record first and for [id] and
    [updatedAt] only: an [orderBy] or a [select] of the conditions is
    replaced, and every other field of the conditions (the [where] filter)
    is passed on as it is. *)
Theorem probe_args_order_and_projection conditions :
  get_prop (probe_args conditions) "orderBy" = Ok (VObj [("updatedAt", VStr "desc")]) /\
  get_prop (probe_args conditions) "select"
    = Ok (VObj [("id", VBool true); ("updatedAt", VBool true)]) /\
  (forall k, k <> "orderBy" -> k <> "select" ->
     get_prop (probe_args conditions) k
       = Ok (default VUndefined (lookup_field k (spread conditions)))).
Proof.
  unfold probe_args, get_prop. repeat split.
  - rewrite !lookup_set_field. reflexivity.
  - rewrite !lookup_set_field. reflexivity.
  - intros k Horder Hselect. rewrite !lookup_set_field.
    rewrite !decide_False by assumption. reflexivity.
Qed.

(** [model] is optional in [CacheLatestOptions], but a call without it
    always fails: the probe throws a TypeError, which is logged, and the
    direct call of the fallback throws the TypeError the caller gets.  The
    cache service and the application state are not touched. *)
Theorem cacheLatest_without_model key options query w :
  model options = None ->
  cacheLatest key options query w =
    (Throw (TypeError ("Cannot read properties of undefined (reading '"
                       +:+ prop_name (head (Object_keys query)) +:+ "')")),
     mkWorld (memcached w)
       (console w ++
        [ConsoleError "Error in cacheLatest"
           (TypeError "Cannot read properties of undefined (reading 'findFirst')")])
       (env w)).
Proof.
  intros Hmodel. unfold cacheLatest, on_env, bind, lift, console_error, call_findFirst,
    call_model, throw.
  rewrite Hmodel. reflexivity.
Qed.

(** A latest record whose [updatedAt] is [null] gives no key: reading
    [getTime] throws, and [cacheLatest] falls back to the direct call,
    uncached, as it does when there is no record. *)
Theorem cacheLatest_null_updatedAt key options operationName conditions others w r
    env1 res env2 :
  call_findFirst (model options) (probe_args conditions) (env w) = (Ok (Some r), env1) ->
  updatedAt r = None ->
  call_model (model options) (Some operationName) conditions env1 = (res, env2) ->
  cacheLatest key options ((operationName, conditions) :: others) w =
    (res,
     mkWorld (memcached w)
       (console w ++
        [ConsoleError "Error in cacheLatest"
           (TypeError "Cannot read properties of null (reading 'getTime')")])
       env2).
Proof.
  intros Hprobe Hnull Hdirect.
  eapply cacheLatest_fallback; [exact Hprobe | | exact Hdirect].
  right. exists (Some r). split; [reflexivity|].
  unfold derived_key. rewrite Hnull. reflexivity.
Qed.

(** An empty query is not rejected: the operation name is then
    [undefined], and on a store with no entries the call ends in the
    TypeError of calling [model[undefined]], whatever the probe and the
    cache service do, for a model that has no operation of that name. *)
Theorem cacheLatest_empty_query key options m w :
  model options = Some m ->
  operation m "undefined" = None ->
  entries (memcached w) = ∅ ->
  fst (cacheLatest key options [] w) =
    Throw (TypeError "model[queryFunction] is not a function").
Proof.
  intros Hmodel Hop Hempty.
  unfold cacheLatest, on_env, bind, lift, console_error, call_model, throw.
  simpl. rewrite Hmodel, Hop.
  destruct (call_findFirst (Some m) (probe_args VUndefined) (env w)) as [[latest|e] env1];
    [destruct (derived_key key latest) as [k|e]|]; simpl; try reflexivity.
  unfold cache, cache_miss, catch_set, try_catch, bind, lift, ret,
    memjs_create, memjs_get, memjs_set, console_debug, console_error, invoke.
  simpl.
  destruct (connect_fault (memcached w)); simpl; [reflexivity|].
  destruct (get_fault (memcached w)); simpl; [reflexivity|].
  rewrite Hempty, lookup_empty. reflexivity.
Qed.

(** When the probe succeeds, a failure of the real query is not handled by
    [cacheLatest]: inside [cache] the query is run three times, and the
    error of the third run reaches the caller.  "Error in cacheLatest" is
    not logged and the direct call of the fallback is not made. *)
Theorem cacheLatest_query_failure_propagates key options operationName conditions others w
    r ms env1 e1 env2 e2 env3 e3 env4 :
  let k := key +:+ "-" +:+ to_string (id r) +:+ "-" +:+ pretty ms in
  let query_call := call_model (model options) (Some operationName) conditions in
  connect_fault (memcached w) = None ->
  get_fault (memcached w) = None ->
  call_findFirst (model options) (probe_args conditions) (env w) = (Ok (Some r), env1) ->
  updatedAt r = Some ms ->
  entries (memcached w) !! k = None ->
  query_call env1 = (Throw e1, env2) ->
  query_call env2 = (Throw e2, env3) ->
  query_call env3 = (Throw e3, env4) ->
  cacheLatest key options ((operationName, conditions) :: others) w =
    (Throw e3,
     mkWorld (memcached w)
       (console w ++
        [ConsoleDebug ("Cache MISS " +:+ k); Invoked;
         ConsoleError "Error in cache SET" e1; Invoked;
         ConsoleError "Error in cache GET" e2; Invoked])
       env4).
Proof.
  intros k query_call Hconnect Hget Hprobe Hms Hempty H1 H2 H3.
  assert (Hk : derived_key key (Some r) = Ok k).
  { unfold derived_key. rewrite Hms. reflexivity. }
  rewrite (cacheLatest_probe_ok _ _ _ _ _ _ _ _ _ Hprobe Hk). fold query_call.
  run_cache. rewrite Hconnect. simpl. rewrite Hget. simpl. rewrite Hempty. simpl.
  rewrite H1. simpl. rewrite H2. simpl. rewrite H3.
  rewrite <- !app_assoc. reflexivity.
Qed.

(** Keys of records that can be told apart are different. *)
Lemma derived_keys_differ key r1 r2 ms1 ms2 :
  updatedAt r1 = Some ms1 ->
  updatedAt r2 = Some ms2 ->
  separable r1 r2 ->
  r1 <> r2 ->
  key +:+ "-" +:+ to_string (id r1) +:+ "-" +:+ pretty ms1
  <> key +:+ "-" +:+ to_string (id r2) +:+ "-" +:+ pretty ms2.
Proof.
  intros H1 H2 Hsep Hne Heq. apply Hne.
  apply (inj (String.app key)) in Heq. injection Heq as Heq.
  unfold separable in Hsep. rewrite H1, H2 in Hsep.
  destruct r1 as [id1 u1], r2 as [id2 u2]. simpl in *. subst u1 u2.
  destruct id1 as [| | | n1 | s1 | |], id2 as [| | | n2 | s2 | |];
    try contradiction; simpl in Heq.
  - destruct (numeral_then_dash _ _ _ _ Heq) as [-> Hms].
    apply (inj pretty) in Hms. subst. reflexivity.
  - destruct Hsep as [Hms1 Hms2].
    destruct (cut_at_last_dash _ _ _ _ (pretty_nonneg_dash_free _ Hms1)
                (pretty_nonneg_dash_free _ Hms2) Heq) as [-> Hms].
    apply (inj pretty) in Hms. subst. reflexivity.
Qed.

(** Invalidation by key: once the latest record has changed, a call finds
    nothing under the new key, runs the real query again and stores the
    new result; the entry cached for the old record is not deleted, it
    stays in the store under the old key. *)
Theorem cacheLatest_update_invalidates key options operationName conditions w
    r1 ms1 text1 stored_options r2 ms2 env1 v env2 text :
  let k1 := key +:+ "-" +:+ to_string (id r1) +:+ "-" +:+ pretty ms1 in
  let k2 := key +:+ "-" +:+ to_string (id r2) +:+ "-" +:+ pretty ms2 in
  connect_fault (memcached w) = None ->
  get_fault (memcached w) = None ->
  set_fault (memcached w) = None ->
  updatedAt r1 = Some ms1 ->
  updatedAt r2 = Some ms2 ->
  separable r1 r2 ->
  r1 <> r2 ->
  entries (memcached w) = {[ k1 := (text1, stored_options) ]} ->
  call_findFirst (model options) (probe_args conditions) (env w) = (Ok (Some r2), env1) ->
  call_model (model options) (Some operationName) conditions env1 = (Ok v, env2) ->
  JSON_stringify v = Ok (Some text) ->
  cacheLatest key options [(operationName, conditions)] w =
    (Ok v,
     mkWorld
       (mkMemcached
          (<[k2 := (text, rest options)]> {[ k1 := (text1, stored_options) ]})
          None None None)
       (console w ++ miss_trace k2) env2)
  /\ k1 <> k2.
Proof.
  intros k1 k2 Hconnect Hget Hset Hms1 Hms2 Hsep Hne Hstore Hprobe Hquery Hprint.
  assert (Hkeys : k1 <> k2) by (apply derived_keys_differ; assumption).
  split; [|exact Hkeys].
  assert (Hk : derived_key key (Some r2) = Ok k2).
  { unfold derived_key. rewrite Hms2. reflexivity. }
  rewrite (cacheLatest_probe_ok _ _ _ _ _ _ _ _ _ Hprobe Hk).
  rewrite <- Hstore.
  apply (cache_miss_stores k2 _ (Some (rest options))
           (mkWorld (memcached w) (console w) env1)); try assumption.
  simpl. rewrite Hstore. apply lookup_singleton_ne. exact Hkeys.
Qed.

End CacheLatestEveryPath.

(** ** The text handed to [JSON.parse] by [main] *)

Section ListingFacts.

Import VersionReporter.

#[local] Arguments String.append : simpl nomatch.

Lemma split_not_nil (sep : ascii) (s : string) : split sep s <> [].
Proof.
  induction s as [|c s IH]; simpl; [discriminate|].
  case_decide; [discriminate|]. destruct (split sep s); [contradiction | discriminate].
Qed.

(** Joining with a one-character text what [split] gave puts that
    character in the place of every separator: [split('\n').join(',')]
    turns each line feed into a comma and nothing else changes. *)
Theorem join_split_replaces (sep joiner : ascii) (s : string) :
  String.concat (String joiner EmptyString) (split sep s) = replace_char sep joiner s.
Proof.
  induction s as [|c s IH]; simpl; [reflexivity|].
  pose proof (split_not_nil sep s) as Hne.
  case_decide as Hc.
  - destruct (split sep s) as [|piece pieces]; [contradiction|].
    rewrite <- IH. reflexivity.
  - destruct (split sep s) as [|piece pieces]; [contradiction|].
    rewrite <- IH. destruct pieces; reflexivity.
Qed.

Lemma split_line_then (line rest : string) :
  split newline line = [line] ->
  split newline (line +:+ String newline rest) = line :: split newline rest.
Proof.
  induction line as [|c line IH]; simpl.
  - intros _. reflexivity.
  - case_decide as Hc; [intros [= ?]|].
    destruct (split newline line) as [|piece pieces] eqn:Hsplit.
    + destruct (split_not_nil _ _ Hsplit).
    + intros [= -> ->]. rewrite (IH eq_refl). reflexivity.
Qed.

(** The round trip of lines: cutting at the line feeds the text that
    joins lines with line feeds gives the lines back. *)
Lemma split_concat_lines (lines : list string) :
  lines <> [] ->
  Forall (fun line => split newline line = [line]) lines ->
  split newline (String.concat (String newline EmptyString) lines) = lines.
Proof.
  induction lines as [|line lines IH]; [contradiction|].
  intros _ Hall. inversion Hall as [|? ? Hline Hrest]; subst.
  destruct lines as [|next lines]; [exact Hline|].
  change (split newline (line +:+ String newline (String.concat (String newline EmptyString) (next :: lines)))
          = line :: next :: lines).
  rewrite (split_line_then _ _ Hline), IH; [reflexivity | discriminate | exact Hrest].
Qed.

Lemma trim_start_length (s : string) :
  (String.length (trim_start s) <= String.length s)%nat.
Proof. induction s as [|c s IH]; simpl; [lia|]. destruct (is_white c); simpl; lia. Qed.

Lemma trim_start_fixed_app (line rest : string) :
  line <> EmptyString -> trim_start line = line ->
  trim_start (line +:+ rest) = line +:+ rest.
Proof.
  destruct line as [|c line]; [contradiction|]. intros _. simpl.
  destruct (is_white c); [|reflexivity].
  intros Hfix. pose proof (trim_start_length line) as Hlen.
  rewrite Hfix in Hlen. simpl in Hlen. lia.
Qed.

Lemma trim_end_fixed_app (before line : string) :
  line <> EmptyString -> trim_end line = line ->
  trim_end (before +:+ line) = before +:+ line.
Proof.
  intros Hne Hfix. induction before as [|c before IH]; simpl; [exact Hfix|].
  rewrite IH. destruct (before +:+ line) eqn:Happ; [|reflexivity].
  destruct before; simpl in Happ; [contradiction | discriminate].
Qed.

Lemma trim_end_newline (s : string) :
  trim_end (s +:+ String newline EmptyString) = trim_end s.
Proof.
  induction s as [|c s IH]; simpl; [reflexivity|]. rewrite IH. reflexivity.
Qed.

Lemma concat_ends_with_last (sep : string) (lines : list string) (line : string) :
  exists before, String.concat sep (lines ++ [line])%list = before +:+ line.
Proof.
  induction lines as [|first lines [before IH]]; simpl.
  - exists EmptyString. reflexivity.
  - destruct (lines ++ [line])%list eqn:Hl; [destruct lines; discriminate|].
    rewrite IH. exists (first +:+ sep +:+ before).
    rewrite ?append_assoc. reflexivity.
Qed.

Lemma unlines_concat (lines : list string) :
  lines <> [] ->
  unlines lines
  = String.concat (String newline EmptyString) lines +:+ String newline EmptyString.
Proof.
  unfold unlines. induction lines as [|line lines IH]; [contradiction|]. intros _.
  destruct lines as [|next lines]; [reflexivity|].
  specialize (IH ltac:(discriminate)).
  change (String.concat EmptyString
            (map (fun l => l +:+ String newline EmptyString) (line :: next :: lines)))
    with ((line +:+ String newline EmptyString) +:+ EmptyString +:+
          String.concat EmptyString
            (map (fun l => l +:+ String newline EmptyString) (next :: lines))).
  rewrite IH.
  change (String.concat (String newline EmptyString) (line :: next :: lines))
    with (line +:+ String newline EmptyString +:+
          String.concat (String newline EmptyString) (next :: lines)).
  simpl. rewrite ?append_assoc. reflexivity.
Qed.

(** The listing printed one JSON value per line becomes the text of the
    JSON array of these values: the final line feed is trimmed away, every
    other line feed becomes a comma, and brackets go around. *)
Theorem workspace_list_json_of_lines (lines : list string) :
  lines <> [] ->
  Forall clean_line lines ->
  workspace_list_json (unlines lines) = "[" +:+ String.concat "," lines +:+ "]".
Proof.
  intros Hne Hclean. unfold workspace_list_json, trim.
  rewrite (unlines_concat lines Hne).
  assert (Hfirst : exists line others, lines = line :: others).
  { destruct lines as [|line others]; [contradiction | eauto]. }
  assert (Hlast : exists others line, lines = (others ++ [line])%list).
  { destruct (exists_last Hne) as (others & line & ->). eauto. }
  destruct Hfirst as (first & others1 & Hlines1).
  assert (Hstart : trim_start (String.concat (String newline EmptyString) lines
                               +:+ String newline EmptyString)
                   = String.concat (String newline EmptyString) lines
                     +:+ String newline EmptyString).
  { rewrite Hlines1 in Hclean |- *. inversion Hclean as [|? ? (Hn & Hs & _) _]; subst.
    destruct others1 as [|next others1]; simpl.
    - apply trim_start_fixed_app; assumption.
    - rewrite ?append_assoc. apply trim_start_fixed_app; assumption. }
  rewrite Hstart, trim_end_newline.
  destruct Hlast as (others2 & last & Hlines2).
  assert (Hend : trim_end (String.concat (String newline EmptyString) lines)
                 = String.concat (String newline EmptyString) lines).
  { rewrite Hlines2 in Hclean |- *.
    apply Forall_app in Hclean as [_ Hl].
    inversion Hl as [|? ? (Hn & _ & He & _) _]; subst.
    destruct (concat_ends_with_last (String newline EmptyString) others2 last)
      as [before ->].
    apply trim_end_fixed_app; assumption. }
  rewrite Hend, split_concat_lines; [reflexivity | exact Hne |].
  eapply Forall_impl; [exact Hclean|]. intros line (_ & _ & _ & Hline). exact Hline.
Qed.

Lemma trim_start_blank (s : string) : blank s -> trim_start s = EmptyString.
Proof.
  induction s as [|c s IH]; simpl; [reflexivity|]. intros [-> Hrest]. auto.
Qed.

(** A listing with no line at all, or white space only, becomes the empty
    array: there is then no package to report on. *)
Theorem workspace_list_json_blank (listing : string) :
  blank listing -> workspace_list_json listing = "[]".
Proof.
  intros Hblank. unfold workspace_list_json, trim.
  rewrite (trim_start_blank _ Hblank). reflexivity.
Qed.

(** [map] over the parsed array gives the [name] of every item, in order;
    it succeeds exactly when every item can be read, that is, when none is
    [null]. *)
Theorem workspace_names_of_array (items names : list JsVal) :
  workspace_names (VArr items) = Ok names <->
  Forall2 (fun workspace name => get_prop workspace "name" = Ok name) items names.
Proof.
  simpl. revert names. induction items as [|item items IH]; intros names; simpl.
  - split; [intros [= <-]; constructor | intros Hall; inversion Hall; reflexivity].
  - destruct (get_prop item "name") as [name|e] eqn:Hname.
    + destruct (names_of items) as [rest|e] eqn:Hrest.
      * split.
        -- intros [= <-]. constructor; [exact Hname | apply IH; reflexivity].
        -- intros Hall. inversion Hall as [|? n ? ns Hn Hns]; subst.
           apply IH in Hns. congruence.
      * split; [discriminate|].
        intros Hall. inversion Hall as [|? n ? ns Hn Hns]; subst.
        apply IH in Hns. discriminate.
    + split; [discriminate|].
      intros Hall. inversion Hall as [|? n ? ns Hn Hns]; subst. congruence.
Qed.

End ListingFacts.

(** ** The script as a whole *)

Section ScriptFacts.

Import VersionReporter.

Context {Shell : Type} (execSync : string -> M Shell string) {json : Json}.

Implicit Types (p : JsVal) (pkgs : list JsVal) (s : Script Shell) (sh : Shell).

(** The body of the loop does not read the console: from a given shell
    state it ends in the same state and adds the same line, whatever was
    printed before. *)
Lemma report_package_appends p sh :
  exists sh' l,
    about p l /\
    forall lines,
      report_package execSync p (mkWorld sh lines) = (Ok tt, mkWorld sh' (lines ++ [l])).
Proof.
  unfold report_package, try_catch, bind, exec, lift, console_log, console_error. simpl.
  destruct (execSync (info_command p) sh) as [[reply|e] sh']; simpl.
  - destruct (JSON_parse reply) as [packageInfo|e]; simpl.
    + destruct (get_prop packageInfo "dist-tags") as [tags|e]; simpl.
      * destruct (and_then tags (get_prop tags "rc")) as [rc|e]; simpl.
        -- destruct (truthy rc); simpl; eexists _, _; (split; [|reflexivity]);
             unfold about; eauto.
        -- eexists _, _. split; [|reflexivity]. unfold about. eauto.
      * eexists _, _. split; [|reflexivity]. unfold about. eauto.
    + eexists _, _. split; [|reflexivity]. unfold about. eauto.
  - eexists _, _. split; [|reflexivity]. unfold about. eauto.
Qed.

Lemma main_loop_appends pkgs sh :
  exists sh' added,
    Forall2 about pkgs added /\
    forall lines,
      main_loop execSync pkgs (mkWorld sh lines) = (Ok tt, mkWorld sh' (lines ++ added)).
Proof.
  revert sh. induction pkgs as [|p pkgs IH]; intros sh.
  - exists sh, []. split; [constructor|]. intros lines. simpl. unfold ret.
    rewrite app_nil_r. reflexivity.
  - destruct (report_package_appends p sh) as (sh1 & l & Habout & Hone).
    destruct (IH sh1) as (sh' & added & Hall & Hrest).
    exists sh', (l :: added). split; [constructor; assumption|].
    intros lines. simpl. unfold bind. rewrite Hone, Hrest, <- app_assoc. reflexivity.
Qed.

(** When the listing command fails, the script prints the one line "An
    error occurred:" with the error and stops there: no package is looked
    up, and the script still ends normally. *)
Theorem script_listing_fails s e sh' :
  execSync "yarn workspaces list --json" (script_shell s) = (Throw e, sh') ->
  script execSync s = (Ok tt, mkScript sh' (output s ++ [Failed "An error occurred:" e])).
Proof.
  intros Hlist. unfold script, main, try_catch, bind, run, print. rewrite Hlist. reflexivity.
Qed.

(** When the listing is obtained and parses to workspaces with readable
    names, the script prints the JSON text, the names found, and then one
    line about every package, in the order of the listing; "An error
    occurred:" is not printed, whichever registry queries fail. *)
Theorem script_reports_every_package s listing sh1 parsed pkgs :
  execSync "yarn workspaces list --json" (script_shell s) = (Ok listing, sh1) ->
  JSON_parse (workspace_list_json listing) = Ok parsed ->
  workspace_names parsed = Ok pkgs ->
  exists sh' lines,
    Forall2 about pkgs lines /\
    script execSync s =
      (Ok tt,
       mkScript sh'
         (output s ++
          [Logged [VObj [("workspaceListJson", VStr (workspace_list_json listing))]];
           Logged [VStr "Found packages:"; VArr pkgs]] ++
          map Reported lines)).
Proof.
  intros Hlist Hparse Hnames.
  destruct (main_loop_appends pkgs sh1) as (sh' & lines & Hall & Hloop).
  exists sh', lines. split; [exact Hall|].
  unfold script, main, try_catch, bind, run, print, lift, in_script.
  rewrite Hlist. simpl. rewrite Hparse, Hnames. simpl. rewrite (Hloop []). simpl.
  rewrite <- !app_assoc. reflexivity.
Qed.

(** The promise of [main] is always settled by the handler attached to
    it: whatever the commands and [JSON.parse] do, the script ends
    normally. *)
Theorem script_never_rejects s : fst (script execSync s) = Ok tt.
Proof.
  unfold script, main, try_catch, bind, run, print, lift, in_script.
  destruct (execSync _ (script_shell s)) as [[listing|e] sh1]; simpl; [|reflexivity].
  destruct (JSON_parse _) as [parsed|e]; simpl; [|reflexivity].
  destruct (workspace_names parsed) as [pkgs|e]; simpl; [|reflexivity].
  destruct (main_loop_appends pkgs sh1) as (sh' & lines & _ & Hloop).
  rewrite (Hloop []). reflexivity.
Qed.

(** A reply whose [dist-tags.rc] is truthy is reported as the latest RC
    version, printed as a template literal prints it. *)
Theorem report_package_rc_found p (w : World Shell) reply sh' packageInfo tags rc :
  execSync (info_command p) (shell w) = (Ok reply, sh') ->
  JSON_parse reply = Ok packageInfo ->
  get_prop packageInfo "dist-tags" = Ok tags ->
  truthy tags = true ->
  get_prop tags "rc" = Ok rc ->
  truthy rc = true ->
  report_package execSync p w =
    (Ok tt,
     mkWorld sh'
       (console w ++
        [ConsoleLog ("Latest RC version for " +:+ to_string p +:+ ": " +:+ to_string rc)])).
Proof.
  intros Hexec Hparse Htags Htruthy Hrc Hfound.
  unfold report_package, try_catch, bind, exec, lift, console_log, and_then.
  rewrite Hexec. simpl. rewrite Hparse. simpl. rewrite Htags. simpl.
  rewrite Htruthy, Hrc. simpl. rewrite Hfound. reflexivity.
Qed.

(** A reply without [dist-tags], or whose [rc] tag is missing or falsy (an
    empty string, say), is reported as having no RC version; it is not an
    error. *)
Theorem report_package_no_rc p (w : World Shell) reply sh' packageInfo tags :
  execSync (info_command p) (shell w) = (Ok reply, sh') ->
  JSON_parse reply = Ok packageInfo ->
  get_prop packageInfo "dist-tags" = Ok tags ->
  truthy tags = false \/ (exists rc, get_prop tags "rc" = Ok rc /\ truthy rc = false) ->
  report_package execSync p w =
    (Ok tt,
     mkWorld sh' (console w ++ [ConsoleLog ("No RC version found for " +:+ to_string p)])).
Proof.
  intros Hexec Hparse Htags Hnone.
  unfold report_package, try_catch, bind, exec, lift, console_log, and_then.
  rewrite Hexec. simpl. rewrite Hparse. simpl. rewrite Htags. simpl.
  destruct Hnone as [Hfalsy | (rc & Hrc & Hfalsy)].
  - rewrite Hfalsy. simpl. rewrite Hfalsy. reflexivity.
  - destruct (truthy tags) eqn:Ht; simpl.
    + rewrite Hrc. simpl. rewrite Hfalsy. reflexivity.
    + rewrite Ht. reflexivity.
Qed.

End ScriptFacts.

Section RecordingFacts.

Import VersionReporter.

Context (respond : list string -> string -> Result string) {json : Json}.

Lemma report_package_records p (w : World (list string)) :
  shell (snd (report_package (recording respond) p w)) = (shell w ++ [info_command p])%list.
Proof.
  unfold report_package, try_catch, bind, exec, lift, console_log, console_error, recording.
  simpl. repeat (case_match; simpl in *; simplify_eq/=); reflexivity.
Qed.

(** The loop runs exactly one registry query per package, in the order of
    the packages, and nothing else: no package is queried twice, failed or
    not, and none is skipped. *)
Theorem main_loop_queries_in_order pkgs (w : World (list string)) :
  shell (snd (main_loop (recording respond) pkgs w))
  = (shell w ++ map info_command pkgs)%list.
Proof.
  revert w. induction pkgs as [|p pkgs IH]; intros w; simpl.
  - rewrite app_nil_r. reflexivity.
  - unfold bind.
    destruct (report_package_total (recording respond) p w) as (sh1 & l & Hone & _).
    pose proof (report_package_records p w) as Hrec. rewrite Hone in *. simpl in Hrec.
    rewrite IH. simpl. rewrite Hrec, <- app_assoc. reflexivity.
Qed.

End RecordingFacts.

(** ** The further facts at sample inputs *)

Section EveryPathExamples.

Import Samples.

(** The [where] filter of the sample conditions reaches the probe. *)
Lemma probe_args_order_and_projection_witness :
  get_prop (probe_args admins) "where" = Ok (VObj [("isAdmin", VBool true)]).
Proof.
  destruct (probe_args_order_and_projection admins) as (_ & _ & Hother).
  apply (Hother "where"); discriminate.
Defined.

Lemma cacheLatest_without_model_witness :
  fst (cacheLatest (json := scalar_json) "posts" (mkLatestOptions None no_options)
         [("count", admins)] (start healthy))
  = Throw (TypeError "Cannot read properties of undefined (reading 'count')").
Proof.
  rewrite (cacheLatest_without_model (json := scalar_json) "posts"
             (mkLatestOptions None no_options) [("count", admins)] (start healthy) eq_refl).
  reflexivity.
Defined.

(** A record with no update time: the count is asked directly. *)
Lemma cacheLatest_null_updatedAt_witness :
  cacheLatest (json := scalar_json) "posts"
    (with_model (scripted_model [Ok (Some record_undated)] [Throw boom; Ok (VNum 3)]))
    [("count", admins)] (start healthy) =
  (Ok (VNum 3),
   mkWorld healthy
     [ConsoleError "Error in cacheLatest"
        (TypeError "Cannot read properties of null (reading 'getTime')")] 2%nat).
Proof.
  apply (cacheLatest_null_updatedAt (json := scalar_json) "posts"
           (with_model (scripted_model [Ok (Some record_undated)] [Throw boom; Ok (VNum 3)]))
           "count" admins [] (start healthy) record_undated 1%nat (Ok (VNum 3)) 2%nat);
    reflexivity.
Defined.

Lemma cacheLatest_empty_query_witness :
  fst (cacheLatest (json := scalar_json) "posts"
         (with_model (scripted_model [Ok (Some record34)] [])) [] (start healthy))
  = Throw (TypeError "model[queryFunction] is not a function").
Proof.
  apply (cacheLatest_empty_query (json := scalar_json) "posts"
           (with_model (scripted_model [Ok (Some record34)] [])) 
           (scripted_model [Ok (Some record34)] []) (start healthy)); reflexivity.
Defined.

(** A query that fails each time it is run. *)
Lemma cacheLatest_query_failure_propagates_witness :
  let k := "posts-34-1600345823495" in
  cacheLatest (json := scalar_json) "posts"
    (with_model (scripted_model [Ok (Some record34)]
                   [Throw boom; Throw boom; Throw boom; Throw refused]))
    [("count", admins)] (start healthy) =
  (Throw refused,
   mkWorld healthy
     [ConsoleDebug ("Cache MISS " +:+ k); Invoked;
      ConsoleError "Error in cache SET" boom; Invoked;
      ConsoleError "Error in cache GET" boom; Invoked] 4%nat).
Proof.
  intros k.
  pose proof (cacheLatest_query_failure_propagates (json := scalar_json) "posts"
                (with_model (scripted_model [Ok (Some record34)]
                               [Throw boom; Throw boom; Throw boom; Throw refused]))
                "count" admins [] (start healthy) record34 1600345823495
                1%nat boom 2%nat boom 3%nat refused 4%nat
                eq_refl eq_refl eq_refl eq_refl) as Hthrice.
  vm_compute in Hthrice. vm_compute. apply Hthrice; reflexivity.
Defined.

(** Record 34 is updated after its result was cached: the count is asked
    again and stored under the new key, next to the old entry. *)
Lemma cacheLatest_update_invalidates_witness :
  let k1 := "posts-34-1600345823495" in
  let k2 := "posts-34-1600345900000" in
  let w := mkWorld (mkMemcached {[ k1 := ("3", no_options) ]} None None None) [] 0%nat in
  cacheLatest (json := scalar_json) "posts"
    (with_model (scripted_model [Ok (Some record34_later)] [Throw boom; Ok (VNum 4)]))
    [("count", admins)] w =
  (Ok (VNum 4),
   mkWorld
     (mkMemcached (<[k2 := ("4", no_options)]> {[ k1 := ("3", no_options) ]})
        None None None)
     (miss_trace k2) 2%nat).
Proof.
  intros k1 k2 w.
  pose proof (cacheLatest_update_invalidates (json := scalar_json) "posts"
                (with_model (scripted_model [Ok (Some record34_later)]
                               [Throw boom; Ok (VNum 4)]))
                "count" admins w record34 1600345823495 "3" no_options
                record34_later 1600345900000 1%nat (VNum 4) 2%nat "4"
                eq_refl eq_refl eq_refl eq_refl eq_refl I) as Hinvalidates.
  vm_compute in Hinvalidates. vm_compute.
  apply Hinvalidates; [discriminate | reflexivity | reflexivity | reflexivity | reflexivity].
Defined.

End EveryPathExamples.

Section ScriptExamples.

Import Samples VersionReporter.

(** The two sample lines. *)
Lemma workspace_list_json_of_lines_witness :
  workspace_list_json (unlines [line_a; line_b]) = "[" +:+ line_a +:+ "," +:+ line_b +:+ "]".
Proof.
  apply (workspace_list_json_of_lines [line_a; line_b]); [discriminate|].
  repeat constructor; try discriminate; vm_compute; reflexivity.
Defined.

Lemma workspace_list_json_blank_witness :
  workspace_list_json (" " +:+ nl) = "[]".
Proof.
  apply (workspace_list_json_blank (" " +:+ nl)). vm_compute. auto.
Defined.

Lemma workspace_names_of_array_witness :
  workspace_names (VArr [VObj [("name", VStr "a")]; VObj [("location", VStr ".")]])
  = Ok [VStr "a"; VUndefined].
Proof.
  apply (proj2 (workspace_names_of_array
                  [VObj [("name", VStr "a")]; VObj [("location", VStr ".")]]
                  [VStr "a"; VUndefined])).
  repeat constructor.
Defined.

Lemma script_listing_fails_witness :
  script (json := scalar_json) broken_shell (mkScript 0%nat [])
  = (Ok tt, mkScript 1%nat [Failed "An error occurred:" no_yarn]).
Proof.
  apply (script_listing_fails (json := scalar_json) broken_shell (mkScript 0%nat [])
           no_yarn 1%nat). reflexivity.
Defined.

Lemma script_reports_every_package_witness :
  exists sh' lines,
    Forall2 about [VStr "a"; VStr "b"] lines /\
    script (json := registry_json) sample_shell (mkScript 0%nat []) =
      (Ok tt,
       mkScript sh'
         ([Logged [VObj [("workspaceListJson",
                          VStr (workspace_list_json (unlines [line_a; line_b])))]];
           Logged [VStr "Found packages:"; VArr [VStr "a"; VStr "b"]]] ++
          map Reported lines)).
Proof.
  apply (script_reports_every_package (json := registry_json) sample_shell
           (mkScript 0%nat []) (unlines [line_a; line_b]) 1%nat
           (VArr [VObj [("name", VStr "a")]; VObj [("name", VStr "b")]])
           [VStr "a"; VStr "b"]); vm_compute; reflexivity.
Defined.

Lemma report_package_rc_found_witness :
  report_package (json := registry_json) sample_shell (VStr "a") (mkWorld 0%nat [])
  = (Ok tt, mkWorld 1%nat [ConsoleLog "Latest RC version for a: 7.0.0-rc.1"]).
Proof.
  apply (report_package_rc_found (json := registry_json) sample_shell (VStr "a")
           (mkWorld 0%nat []) rc_reply 1%nat
           (VObj [("dist-tags", VObj [("rc", VStr "7.0.0-rc.1")])])
           (VObj [("rc", VStr "7.0.0-rc.1")]) (VStr "7.0.0-rc.1"));
    vm_compute; reflexivity.
Defined.

(** The reply [7] has no [dist-tags]. *)
Lemma report_package_no_rc_witness :
  report_package (json := scalar_json) sample_registry (VStr "c") (mkWorld 0%nat [])
  = (Ok tt, mkWorld 1%nat [ConsoleLog "No RC version found for c"]).
Proof.
  apply (report_package_no_rc (json := scalar_json) sample_registry (VStr "c")
           (mkWorld 0%nat []) "7" 1%nat (VNum 7) VUndefined);
    [reflexivity | reflexivity | reflexivity | left; reflexivity].
Defined.

End ScriptExamples.
